(** * Store-locator scraper ([src/main.py]): model and verified properties

    The script walks a grid of bounding boxes over the configured latitude
    and longitude ranges, asks the map endpoint for the markers of each box,
    drops markers already seen or outside the allowed countries, enriches the
    remaining ones from the store endpoint (falling back on the dealer
    endpoint), derives three fields and writes one CSV row per marker.

    The model keeps the shape of the script: Python objects decoded from JSON
    are a [value], a [dict] is a finite map from strings, the two [while]
    loops of the generator are well-founded recursive functions, and the
    effects of [main] (HTTP requests, prints, CSV rows, sleeps, the two
    mutable locals) live in a state-and-exception monad whose state records
    every effect in order. *)

From Stdlib Require Import QArith Qround Qabs Lqa.
From stdpp Require Import gmap strings list fin_maps.
From Equations Require Import Equations.

Set Warnings "-register-all".

(** ** Python values *)

(** The objects [json.loads] builds.  A [float] is modelled by the rational
    it denotes (every finite binary64 number is one); the non-finite floats
    are outside the model. *)
Inductive value :=
| VNone
| VBool (b : bool)
| VInt (n : Z)
| VFloat (x : Q)
| VStr (s : string)
| VList (items : list value)
| VDict (fields : gmap string value).

Abbreviation dict := (gmap string value).

Inductive exn :=
| ConnectionError
| HTTPError
| JSONDecodeError
| AttributeError
| TypeError
| KeyError
| OSError
| ParserError.

Inductive result (A : Type) :=
| Ok (a : A)
| Raise (e : exn).
Arguments Ok {A} a.
Arguments Raise {A} e.

#[export] Instance result_ret : MRet result := fun A a => Ok a.
#[export] Instance result_bind : MBind result := fun A B f r =>
  match r with
  | Ok a => f a
  | Raise e => Raise e
  end.

(** [bool], [int] and [float] compare by numeric value in Python. *)
Definition as_number (v : value) : option Q :=
  match v with
  | VBool b => Some (if b then 1%Q else 0%Q)
  | VInt n => Some (inject_Z n)
  | VFloat x => Some x
  | _ => None
  end.

(** [a == b] where at least one operand is a scalar, which is the only way
    the script compares values: a container is never equal to a scalar. *)
Definition py_eq (a b : value) : bool :=
  match a, b with
  | VNone, VNone => true
  | VStr s, VStr t => bool_decide (s = t)
  | _, _ =>
      match as_number a, as_number b with
      | Some x, Some y => Qeq_bool x y
      | _, _ => false
      end
  end.

(** Lists and dicts are not hashable. *)
Definition hashable (v : value) : bool :=
  match v with
  | VList _ | VDict _ => false
  | _ => true
  end.

(** [x in s] for a set [s], kept as the list of its members. *)
Definition set_contains (s : list value) (x : value) : result bool :=
  if hashable x then Ok (existsb (py_eq x) s) else Raise TypeError.

(** [x in l] for a list [l]. *)
Definition list_contains (l : list value) (x : value) : bool :=
  existsb (py_eq x) l.

(** [obj.get(key, default)]: only a dict has the method. *)
Definition py_get (obj : value) (key : string) (dflt : value) : result value :=
  match obj with
  | VDict d => Ok (default dflt (d !! key))
  | _ => Raise AttributeError
  end.

(** [obj.items()], likewise. *)
Definition py_items (obj : value) : result dict :=
  match obj with
  | VDict d => Ok d
  | _ => Raise AttributeError
  end.

(** The values a [for] loop over [obj] visits: the items of a list, the keys
    of a dict, the characters of a string; anything else is not iterable. *)
Definition py_iter (obj : value) : result (list value) :=
  match obj with
  | VList l => Ok l
  | VDict d => Ok (VStr <$> (map_to_list d).*1)
  | VStr s => Ok ((fun c => VStr (String c EmptyString)) <$> String.list_ascii_of_string s)
  | _ => Raise TypeError
  end.

(** ** Configuration *)

Definition LATITUDE_RANGES : list (Q * Q) :=
  [(47, 30); (30, 27); (131 # 4, 131 # 4); (77 # 2, 77 # 2)]%Q.
Definition LONGITUDE_RANGES : list (Q * Q) :=
  [(-13, 8); (-20, -12); (-17, -17); (-57 # 2, -57 # 2)]%Q.

Definition BOX_SIZE : Q := 3 # 2.

Definition FIELDS : list string :=
  ["name"; "address"; "has_enabled_affiliate"; "phone"; "city"; "state";
   "country"; "zip"; "website_url"; "maps_url"; "lat"; "lng"].

Definition HEADERS : gmap string string :=
  list_to_map
    [("name", "Nombre de la tienda"); ("address", "Dirección");
     ("has_enabled_affiliate", "Afiliado"); ("phone", "Teléfono");
     ("city", "Ciudad"); ("state", "Provincia"); ("country", "País");
     ("zip", "Código postal"); ("website_url", "Página web");
     ("maps_url", "Google Maps"); ("lat", "Latitud"); ("lng", "Longitud")].

Definition ALLOWED_COUNTRIES : list value := [VStr "ES"; VStr "PT"; VStr "AD"].

(** ** The grid of bounding boxes *)

Record box := Box {
  box_center_lat : Q; box_center_lng : Q;
  box_ne_lat : Q; box_ne_lng : Q;
  box_sw_lat : Q; box_sw_lng : Q
}.

(** The tuple yielded for one grid position. *)
Definition box_at (center_lat center_lng : Q) : box :=
  let ne_lat := (center_lat + BOX_SIZE)%Q in
  let ne_lng := (center_lng + BOX_SIZE)%Q in
  let sw_lat := (center_lat - BOX_SIZE)%Q in
  let sw_lng := (center_lng - BOX_SIZE)%Q in
  Box center_lat center_lng ne_lat ne_lng sw_lat sw_lng.

(** Number of iterations a loop still has to run when its variable is
    [span] away from the bound (zero once the variable is past it).  Only the
    termination arguments use it. *)
Definition steps_left (span : Q) : nat :=
  Z.to_nat (Qfloor (span / BOX_SIZE) + 1).

Lemma inject_Z_pred z : (inject_Z (z - 1) == inject_Z z - 1)%Q.
Proof. unfold Z.sub. rewrite inject_Z_plus. reflexivity. Qed.

Lemma inject_Z_succ z : (inject_Z (z + 1) == inject_Z z + 1)%Q.
Proof. rewrite inject_Z_plus. reflexivity. Qed.

Lemma Qfloor_pred q : Qfloor (q - 1) = (Qfloor q - 1)%Z.
Proof.
  pose proof (Qfloor_le q) as A. pose proof (Qlt_floor q) as B.
  pose proof (Qfloor_le (q - 1)) as A'. pose proof (Qlt_floor (q - 1)) as B'.
  rewrite inject_Z_succ in B, B'.
  assert (C : (inject_Z (Qfloor (q - 1)) < inject_Z (Qfloor q - 1 + 1))%Q).
  { rewrite inject_Z_succ, inject_Z_pred. lra. }
  assert (D : (inject_Z (Qfloor q - 1) < inject_Z (Qfloor (q - 1) + 1))%Q).
  { rewrite inject_Z_succ, inject_Z_pred. lra. }
  rewrite <- Zlt_Qlt in C, D. lia.
Qed.

Lemma Qfloor_nonneg q : (0 <= q)%Q -> (0 <= Qfloor q)%Z.
Proof. intros H. change 0%Z with (Qfloor 0). by apply Qfloor_resp_le. Qed.

Lemma span_over_step_nonneg span : (0 <= span)%Q -> (0 <= span / BOX_SIZE)%Q.
Proof.
  intros H. apply Qle_shift_div_l; [reflexivity|]. by rewrite Qmult_0_l.
Qed.

Lemma span_step span : ((span - BOX_SIZE) / BOX_SIZE == span / BOX_SIZE - 1)%Q.
Proof. unfold BOX_SIZE. field. Qed.

Lemma steps_left_step span :
  (0 <= span)%Q -> steps_left span = S (steps_left (span - BOX_SIZE)).
Proof.
  intros H. unfold steps_left.
  rewrite span_step, Qfloor_pred.
  pose proof (Qfloor_nonneg _ (span_over_step_nonneg _ H)). lia.
Qed.

(** The inner loop: [while center_lng <= end_lng], stepping east. *)
Equations? lng_loop (center_lat center_lng end_lng : Q) : list box
  by wf (steps_left (end_lng - center_lng)) lt :=
  lng_loop center_lat center_lng end_lng with Qlt_le_dec end_lng center_lng := {
    | left _ => [];
    | right _ =>
        box_at center_lat center_lng
        :: lng_loop center_lat (center_lng + BOX_SIZE) end_lng }.
Proof.
  rewrite (steps_left_step (end_lng - center_lng)) by lra.
  assert (E : (end_lng - (center_lng + BOX_SIZE) == end_lng - center_lng - BOX_SIZE)%Q)
    by ring.
  unfold steps_left. rewrite E. lia.
Qed.

(** The outer loop: [while center_lat >= end_lat], stepping south. *)
Equations? lat_loop (center_lat end_lat start_lng end_lng : Q) : list box
  by wf (steps_left (center_lat - end_lat)) lt :=
  lat_loop center_lat end_lat start_lng end_lng with Qlt_le_dec center_lat end_lat := {
    | left _ => [];
    | right _ =>
        lng_loop center_lat start_lng end_lng
        ++ lat_loop (center_lat - BOX_SIZE) end_lat start_lng end_lng }.
Proof.
  rewrite (steps_left_step (center_lat - end_lat)) by lra.
  assert (E : (center_lat - BOX_SIZE - end_lat == center_lat - end_lat - BOX_SIZE)%Q)
    by ring.
  unfold steps_left. rewrite E. lia.
Qed.

(** The boxes of one (latitude range, longitude range) pair. *)
Definition boxes_of_ranges (ranges : (Q * Q) * (Q * Q)) : list box :=
  let '((start_lat, end_lat), (start_lng, end_lng)) := ranges in
  lat_loop start_lat end_lat start_lng end_lng.

(** The generator, as the list of the boxes it yields in order. *)
Definition generate_bounding_boxes : list box :=
  flat_map boxes_of_ranges (zip LATITUDE_RANGES LONGITUDE_RANGES).

(** ** Parsed markup *)

(** An element of the tree BeautifulSoup builds: its tag name, the items of
    its multi-valued [class] attribute, its other attributes, its children.
    Text nodes play no part in a selector match and are left out. *)
Inductive element :=
| Element (name : string) (classes : list string)
          (attrs : gmap string string) (children : list element).

Abbreviation soup := (list element).

Definition tag_name (e : element) : string :=
  let 'Element name _ _ _ := e in name.
Definition tag_classes (e : element) : list string :=
  let 'Element _ classes _ _ := e in classes.
Definition tag_attrs (e : element) : gmap string string :=
  let 'Element _ _ attrs _ := e in attrs.

(** [tag[key]]: a missing attribute is a [KeyError]. *)
Definition tag_getitem (e : element) (key : string) : result string :=
  match tag_attrs e !! key with
  | Some v => Ok v
  | None => Raise KeyError
  end.

(** A compound selector [name.class]. *)
Definition is_tag_with_class (name class : string) (e : element) : bool :=
  bool_decide (tag_name e = name) && bool_decide (class ∈ tag_classes e).

(** The selector ["span.store-info-subtitle a"]: an anchor below such a span. *)
Definition subtitle_anchor (ancestors : list element) (e : element) : bool :=
  bool_decide (tag_name e = "a")
  && existsb (is_tag_with_class "span" "store-info-subtitle") ancestors.

(** The selector ["a.js-get-directions"]. *)
Definition directions_anchor (ancestors : list element) (e : element) : bool :=
  is_tag_with_class "a" "js-get-directions" e.

(** Matches of a selector below (and including) an element, in document
    order. *)
Fixpoint select_in (sel : list element -> element -> bool)
    (ancestors : list element) (e : element) : list element :=
  match e with
  | Element _ _ _ children =>
      (if sel ancestors e then [e] else [])
      ++ flat_map (select_in sel (e :: ancestors)) children
  end.

Definition select (sel : list element -> element -> bool) (doc : soup)
    : list element :=
  flat_map (select_in sel []) doc.

(** [soup.select_one(selector)]: the first match, if any. *)
Definition select_one (sel : list element -> element -> bool) (doc : soup)
    : option element :=
  head (select sel doc).

(** ** The outside world *)

Inductive request :=
| MapQuery (b : box)              (* MAP_ENDPOINT with the box as parameters *)
| StoreQuery (store_id : value)   (* STORE_ENDPOINT for the identifier *)
| DealerQuery (store_id : value). (* DEALER_ENDPOINT for the identifier *)

(** What [requests.get] hands back: whether the status is a success, and the
    decoded JSON body when the body is JSON at all. *)
Record response := Response {
  status_ok : bool;
  body : option value
}.

Inductive reply :=
| ConnectionFailed            (* [requests.get] itself raises *)
| Responded (r : response).

(** Everything the script does not decide: whether the output file can be
    opened, how the server answers the [n]-th request of the run, and the
    tree the HTML parser builds from a piece of markup. *)
Record world := World {
  sink_opens : bool;
  http_get : nat -> request -> reply;
  html_parser : value -> result soup
}.

(** ** Effects *)

Inductive message :=
| StoreLookupFailed                    (* "Error fetching store data ..." *)
| BoxLookupFailed (b : box) (e : exn). (* "Error fetching {url}: {e}" *)

Inductive event :=
| Requested (r : request)
| Printed (m : message)
| HeaderWritten              (* [write_csv_header(writer)] *)
| RowWritten (marker : dict) (* [write_csv_row(writer, marker)] *)
| Slept.

(** The mutable locals of [main] and the effects so far, oldest first. *)
Record state := State {
  seen_ids : list value;
  wrote_header : bool;
  trace : list event
}.

Definition initial_state : state := State [] false [].

(** A computation ends normally or with an exception; either way the effects
    it had stay in the state. *)
Definition M (A : Type) : Type := state -> result A * state.

#[export] Instance M_ret : MRet M := fun A a s => (Ok a, s).
#[export] Instance M_bind : MBind M := fun A B f c s =>
  match c s with
  | (Ok a, s') => f a s'
  | (Raise e, s') => (Raise e, s')
  end.

Definition raise {A} (e : exn) : M A := fun s => (Raise e, s).

Definition lift {A} (r : result A) : M A := fun s => (r, s).

(** [try: body except Exception as e: handler]. *)
Definition try_except {A} (body : M A) (handler : exn -> M A) : M A := fun s =>
  match body s with
  | (Ok a, s') => (Ok a, s')
  | (Raise e, s') => handler e s'
  end.

Definition emit (e : event) : M unit := fun s =>
  (Ok (), State (seen_ids s) (wrote_header s) (trace s ++ [e])).

Fixpoint for_each {A} (body : A -> M unit) (l : list A) : M unit :=
  match l with
  | [] => mret ()
  | x :: rest => body x ≫= fun _ => for_each body rest
  end.

Definition is_request (e : event) : bool :=
  match e with
  | Requested _ => true
  | _ => false
  end.

Definition requests_made (tr : list event) : nat :=
  length (filter (fun e => is_request e = true) tr).

(** [requests.get(url)]: the request is recorded, and the world answers it
    as the request that comes after those already made. *)
Definition requests_get (w : world) (req : request) : M response := fun s =>
  let s' := State (seen_ids s) (wrote_header s) (trace s ++ [Requested req]) in
  match http_get w (requests_made (trace s)) req with
  | ConnectionFailed => (Raise ConnectionError, s')
  | Responded r => (Ok r, s')
  end.

(** [response.raise_for_status()] and [response.json()]. *)
Definition raise_for_status (r : response) : result unit :=
  if status_ok r then Ok () else Raise HTTPError.

Definition json (r : response) : result value :=
  match body r with
  | Some v => Ok v
  | None => Raise JSONDecodeError
  end.

(** ** The functions of the script *)

(** The parse is the world's; the two selections and the two subscripts are
    the script's. *)
Definition extract_urls_from_html (w : world) (html : value)
    : result (string * string) :=
  doc ← html_parser w html;
  let website_tag := select_one subtitle_anchor doc in
  let maps_tag := select_one directions_anchor doc in
  website_url ← match website_tag with
                | Some tag => tag_getitem tag "href"
                | None => Ok ""
                end;
  maps_url ← match maps_tag with
             | Some tag => tag_getitem tag "href"
             | None => Ok ""
             end;
  mret (website_url, maps_url).

(** [marker.setdefault(k, v)]. *)
Definition setdefault (k : string) (v : value) (marker : dict) : dict :=
  match marker !! k with
  | Some _ => marker
  | None => <[k := v]> marker
  end.

(** [for k, v in data.items(): marker.setdefault(k, v)].  The keys of a dict
    are distinct, so the order of the visit does not show in the result. *)
Definition merge_into (marker data : dict) : dict :=
  map_fold setdefault marker data.

(** Returns the marker as the call leaves it (the script mutates it in
    place).  Every statement of a [try] block that can raise comes before
    the first [setdefault], so a handler starts from the marker unchanged. *)
Definition fetch_store_data (w : world) (store_id : value) (marker : dict)
    : M dict :=
  try_except
    (store_resp ← requests_get w (StoreQuery store_id);
     _ ← lift (raise_for_status store_resp);
     store_data ← lift (json store_resp);
     items ← lift (py_items store_data);
     mret (merge_into marker items))
    (fun _ =>
       _ ← emit (Printed StoreLookupFailed);
       try_except
         (dealer_resp ← requests_get w (DealerQuery store_id);
          _ ← lift (raise_for_status dealer_resp);
          dealer_data ← lift (json dealer_resp);
          items ← lift (py_items dealer_data);
          mret (merge_into marker items))
         (fun _ => mret marker)).

Definition write_csv_header : M unit := emit HeaderWritten.

Definition write_csv_row (marker : dict) : M unit := emit (RowWritten marker).

(** The cells the two writers pass to [csv_writer.writerow]. *)
Definition header_cells : list value :=
  (fun field => VStr (default field (HEADERS !! field))) <$> FIELDS.

Definition row_cells (marker : dict) : list value :=
  (fun field => default (VStr "") (marker !! field)) <$> FIELDS.

(** The rows of the output file after the given effects. *)
Definition csv_rows (tr : list event) : list (list value) :=
  flat_map (fun e => match e with
                     | HeaderWritten => [header_cells]
                     | RowWritten marker => [row_cells marker]
                     | _ => []
                     end) tr.

(** Reads and writes of the two locals of [main]. *)
Definition seen_contains (store_id : value) : M bool := fun s =>
  (set_contains (seen_ids s) store_id, s).

Definition seen_add (store_id : value) : M unit := fun s =>
  (Ok (), State (store_id :: seen_ids s) (wrote_header s) (trace s)).

Definition get_wrote_header : M bool := fun s => (Ok (wrote_header s), s).

Definition set_wrote_header (b : bool) : M unit := fun s =>
  (Ok (), State (seen_ids s) b (trace s)).

(** The body of [for marker in markers]; returning early is [continue].  The
    marker is mutated in place in the script; here the successive contents
    are rebound to [fields].  The last branch is never reached: [marker.get]
    has already raised for anything that is not a dict. *)
Definition process_marker (w : world) (marker : value) : M unit :=
  store_id ← lift (py_get marker "id" VNone);
  known ← seen_contains store_id;
  if known : bool return M unit then mret () else
  _ ← seen_add store_id;
  country ← lift (py_get marker "country" VNone);
  if negb (list_contains ALLOWED_COUNTRIES country) return M unit
  then mret () else
  match marker with
  | VDict fields =>
      fields ← fetch_store_data w store_id fields;
      let store_html := default (VStr "") (fields !! "store_html") in
      '(website_url, maps_url) ← lift (extract_urls_from_html w store_html);
      let affiliate := default (VStr "") (fields !! "has_enabled_affiliate") in
      let fields := <["website_url" := VStr website_url]> fields in
      let fields := <["maps_url" := VStr maps_url]> fields in
      let fields := <["has_enabled_affiliate" := affiliate]> fields in
      header ← get_wrote_header;
      _ ← (if header : bool return M unit then mret ()
           else _ ← write_csv_header; set_wrote_header true);
      write_csv_row fields
  | _ => raise AttributeError
  end.

(** The body of [for box in generate_bounding_boxes()]. *)
Definition scan_box (w : world) (b : box) : M unit :=
  fetched ← try_except
    (response ← requests_get w (MapQuery b);
     _ ← lift (raise_for_status response);
     data ← lift (json response);
     mret (Some data))
    (fun e => _ ← emit (Printed (BoxLookupFailed b e)); mret None);
  match fetched return M unit with
  | None => mret ()
  | Some data =>
      markers ← lift (py_get data "markers" (VList []));
      items ← lift (py_iter markers);
      _ ← for_each (process_marker w) items;
      emit Slept
  end.

(** The loop of [main] over the boxes the generator yields. *)
Definition scan (w : world) (boxes : list box) : M unit :=
  for_each (scan_box w) boxes.

(** [main()]: the exception that ends the run, if any, and the final state.
    Opening the output file comes first; writing to it is taken to succeed. *)
Definition main (w : world) : result unit * state :=
  if sink_opens w then scan w generate_bounding_boxes initial_state
  else (Raise OSError, initial_state).

(** ** Vocabulary of the statements *)

(** The count the specification gives for one axis:
    [floor(|end - start| / step) + 1]. *)
Definition axis_tiles (start_ end_ : Q) : nat :=
  Z.to_nat (Qfloor (Qabs (end_ - start_) / BOX_SIZE) + 1).

(** The JSON a map query delivers when it succeeds: the server answered,
    with a success status and a body that is JSON. *)
Definition map_data (r : reply) : option value :=
  match r with
  | Responded (Response true (Some data)) => Some data
  | _ => None
  end.

(** The payload of a detail lookup that succeeds: as above, and the JSON is
    an object. *)
Definition detail_payload (r : reply) : option dict :=
  match r with
  | Responded (Response true (Some (VDict data))) => Some data
  | _ => None
  end.

(** The state after further effects, and after a new identifier. *)
Definition logged (s : state) (events : list event) : state :=
  State (seen_ids s) (wrote_header s) (trace s ++ events).

Definition with_seen (store_id : value) (s : state) : state :=
  State (store_id :: seen_ids s) (wrote_header s) (trace s).

Definition is_header (e : event) : bool :=
  match e with
  | HeaderWritten => true
  | _ => false
  end.

Definition is_row (e : event) : bool :=
  match e with
  | RowWritten _ => true
  | _ => false
  end.

(** The markers passed to [write_csv_row], in order. *)
Definition written_markers (tr : list event) : list dict :=
  omap (fun e => match e with RowWritten marker => Some marker | _ => None end) tr.

(** The identifiers [fetch_store_data] was called with, in order: its first
    effect is the store query, and nothing else sends one.  These are the
    identifiers that passed both the duplicate test and the country test. *)
Definition admitted_ids (tr : list event) : list value :=
  omap (fun e => match e with
                 | Requested (StoreQuery store_id) => Some store_id
                 | _ => None
                 end) tr.

(** What one pass of the marker loop body can do. *)
Inductive marker_step (w : world) (s : state) : value -> result unit * state -> Prop :=
| step_not_a_dict marker :
    (forall fields, marker <> VDict fields) ->
    marker_step w s marker (Raise AttributeError, s)
| step_unhashable fields :
    hashable (default VNone (fields !! "id")) = false ->
    marker_step w s (VDict fields) (Raise TypeError, s)
| step_duplicate fields :
    set_contains (seen_ids s) (default VNone (fields !! "id")) = Ok true ->
    marker_step w s (VDict fields) (Ok (), s)
| step_filtered fields :
    let store_id := default VNone (fields !! "id") in
    set_contains (seen_ids s) store_id = Ok false ->
    list_contains ALLOWED_COUNTRIES (default VNone (fields !! "country")) = false ->
    marker_step w s (VDict fields) (Ok (), with_seen store_id s)
| step_extraction_raises fields enriched s1 e :
    let store_id := default VNone (fields !! "id") in
    set_contains (seen_ids s) store_id = Ok false ->
    list_contains ALLOWED_COUNTRIES (default VNone (fields !! "country")) = true ->
    fetch_store_data w store_id fields (with_seen store_id s) = (Ok enriched, s1) ->
    extract_urls_from_html w (default (VStr "") (enriched !! "store_html")) = Raise e ->
    marker_step w s (VDict fields) (Raise e, s1)
| step_written fields enriched s1 website_url maps_url :
    let store_id := default VNone (fields !! "id") in
    let affiliate := default (VStr "") (enriched !! "has_enabled_affiliate") in
    let record := <["has_enabled_affiliate" := affiliate]>
                    (<["maps_url" := VStr maps_url]>
                       (<["website_url" := VStr website_url]> enriched)) in
    set_contains (seen_ids s) store_id = Ok false ->
    list_contains ALLOWED_COUNTRIES (default VNone (fields !! "country")) = true ->
    fetch_store_data w store_id fields (with_seen store_id s) = (Ok enriched, s1) ->
    extract_urls_from_html w (default (VStr "") (enriched !! "store_html"))
      = Ok (website_url, maps_url) ->
    marker_step w s (VDict fields)
      (Ok (),
       State (seen_ids s1) true
         (trace s1 ++ (if wrote_header s1 then [] else [HeaderWritten])
                   ++ [RowWritten record])).

(** [I] survives the computation, however it ends. *)
Definition preserves {A} (I : state -> Prop) (c : M A) : Prop :=
  forall s, I s -> I (c s).2.

(** Effects other than a store query and a CSV write. *)
Definition is_neutral (e : event) : bool :=
  match e with
  | Requested (MapQuery _) | Printed _ | Slept => true
  | _ => false
  end.

(** The exception a failed map query is reported with. *)
Definition failure_of (r : reply) : exn :=
  match r with
  | ConnectionFailed => ConnectionError
  | Responded (Response false _) => HTTPError
  | Responded (Response true _) => JSONDecodeError
  end.

(** The marker loop and the pause that follow a successful map query. *)
Definition after_map_query (w : world) (data : value) : M unit :=
  markers ← lift (py_get data "markers" (VList []));
  items ← lift (py_iter markers);
  _ ← for_each (process_marker w) items;
  emit Slept.

(** Every identifier admitted so far is in the seen set. *)
Definition admitted_seen (s : state) : Prop :=
  forall store_id,
    store_id ∈ admitted_ids (trace s) ->
    set_contains (seen_ids s) store_id = Ok true.

(** An effect that puts nothing in the output file. *)
Definition no_write (e : event) : Prop := is_header e = false /\ is_row e = false.

(** How many times the header went out. *)
Definition headers_written (tr : list event) : nat :=
  length (filter (fun e => is_header e = true) tr).

(** Once the flag is set the header was written just before the first row and
    never again; until then nothing was written. *)
Definition header_lazy (s : state) : Prop :=
  if wrote_header s
  then exists pre marker post,
         trace s = pre ++ HeaderWritten :: RowWritten marker :: post
         /\ Forall no_write pre
         /\ Forall (fun e => is_header e = false) post
  else Forall no_write (trace s).

(** The markers a successful map query hands to the marker loop. *)
Definition search_result (r : reply) : option (list value) :=
  match map_data r with
  | Some (VDict data) =>
      match default (VList []) (data !! "markers") with
      | VList markers => Some markers
      | _ => None
      end
  | _ => None
  end.

(** A map query that fails, or succeeds without any marker. *)
Definition is_quiet (r : reply) : bool :=
  match map_data r, search_result r with
  | None, _ => true
  | Some _, Some [] => true
  | _, _ => false
  end.

(** A multiple of a quarter degree, at most 64 in magnitude. *)
Definition quarter_degree (x : Q) : bool :=
  Qeq_bool (inject_Z (Qfloor (4 * x))) (4 * x)
  && Qle_bool (-64) x && Qle_bool x 64.

(** ** Some worlds to run the script in *)

(** Every response is an empty JSON array. *)
Definition array_world : world :=
  World true (fun _ _ => Responded (Response true (Some (VList [])))) (fun _ => Ok []).

(** The tree of [<a class='js-get-directions'>Directions</a>]. *)
Definition directions_without_href : soup :=
  [Element "a" ["js-get-directions"] ∅ []].

(** No server, and every markup parses to that tree. *)
Definition href_less_world : world :=
  World true (fun _ _ => ConnectionFailed) (fun _ => Ok directions_without_href).

(** Two boxes with the same centre. *)
Definition box_eqb (a b : box) : bool :=
  Qeq_bool (box_center_lat a) (box_center_lat b)
  && Qeq_bool (box_center_lng a) (box_center_lng b).

(** A marker with just an identifier and a country. *)
Definition marker_of (store_id country : string) : dict :=
  <["id" := VStr store_id]> {["country" := VStr country]}.

(** A successful response whose object holds the given markers. *)
Definition markers_reply (markers : list value) : reply :=
  Responded (Response true (Some (VDict {["markers" := VList markers]}))).

(** The first box of the grid answers with markers 1 and 2, the third with
    markers 1 and 3; no detail lookup succeeds and no markup has anchors. *)
Definition scenario_world : world :=
  World true
    (fun _ r =>
       match r with
       | MapQuery b =>
           if box_eqb b (box_at 47 (-13)) then
             markers_reply [VDict (marker_of "1" "ES"); VDict (marker_of "2" "FR")]
           else if box_eqb b (box_at 47 (-10)) then
             markers_reply [VDict (marker_of "1" "ES"); VDict (marker_of "3" "PT")]
           else markers_reply []
       | _ => ConnectionFailed
       end)
    (fun _ => Ok []).

(** The store endpoint answers 404 and the dealer endpoint has a record. *)
Definition fallback_world : world :=
  World true
    (fun _ r =>
       match r with
       | DealerQuery _ =>
           Responded (Response true (Some (VDict {["phone" := VStr "123"]})))
       | _ => Responded (Response false None)
       end)
    (fun _ => Ok []).

(** A store profile with both anchors. *)
Definition profile_doc : soup :=
  [Element "div" [] ∅
     [Element "span" ["store-info-subtitle"] ∅
        [Element "a" [] {["href" := "https://shop.example"]} []];
      Element "a" ["btn"; "js-get-directions"]
        {["href" := "https://maps.example"]} []]].

(** The store endpoint supplies a [maps_url] and the markup. *)
Definition profile_world : world :=
  World true
    (fun _ r =>
       match r with
       | StoreQuery _ =>
           Responded (Response true (Some (VDict
             (<["maps_url" := VStr "detail-maps"]>
                {["store_html" := VStr "<div>...</div>"]}))))
       | _ => ConnectionFailed
       end)
    (fun _ => Ok profile_doc).

(** A marker whose markup has a directions anchor without [href]. *)
Definition href_less_run : world :=
  World true
    (fun _ r =>
       match r with
       | MapQuery _ =>
           markers_reply
             [VDict (<["store_html" := VStr "<a class='js-get-directions'>Directions</a>"]>
                       (marker_of "1" "ES"))]
       | _ => ConnectionFailed
       end)
    (fun _ => Ok directions_without_href).

(** The store endpoint knows store 1 only; the dealer endpoint knows every
    identifier.  Both describe a store by the same two fields. *)
Definition payload_world : world :=
  World true
    (fun _ r =>
       match r with
       | StoreQuery (VStr "1") | DealerQuery _ =>
           Responded (Response true (Some (VDict
             (<["a" := VInt 2]> {["b" := VInt 3]}))))
       | _ => Responded (Response false None)
       end)
    (fun _ => Ok []).

(** Whenever the marker is enriched, the markup it then carries can be read:
    [extract_urls_from_html] returns on it. *)
Definition markup_readable (w : world) (store_id : value) (marker : dict)
    : Prop :=
  forall s enriched s1,
    fetch_store_data w store_id marker s = (Ok enriched, s1) ->
    exists urls,
      extract_urls_from_html w (default (VStr "") (enriched !! "store_html"))
      = Ok urls.

(** A parser that takes strings only, and finds a directions anchor without
    [href] in every markup but the empty one. *)
Definition strict_parser (html : value) : result soup :=
  match html with
  | VStr EmptyString => Ok []
  | VStr _ => Ok directions_without_href
  | _ => Raise TypeError
  end.

(** The scenario of two boxes with three stores, under that parser. *)
Definition strict_scenario_world : world :=
  World true (http_get scenario_world) strict_parser.

(** ** Vocabulary of the further properties *)

(** The point lies in the box, borders included. *)
Definition in_box (b : box) (lat lng : Q) : Prop :=
  (box_sw_lat b <= lat)%Q /\ (lat <= box_ne_lat b)%Q
  /\ (box_sw_lng b <= lng)%Q /\ (lng <= box_ne_lng b)%Q.

(** The order the generator yields in: north before south, and west before
    east on one latitude. *)
Definition row_major (b b' : box) : Prop :=
  (box_center_lat b' < box_center_lat b)%Q
  \/ ((box_center_lat b == box_center_lat b')%Q
      /\ (box_center_lng b < box_center_lng b')%Q).

(** The effects of the marker loop: detail requests, the fallback notice,
    and the two kinds of CSV write. *)
Definition is_marker_event (e : event) : bool :=
  match e with
  | Requested (StoreQuery _) | Requested (DealerQuery _)
  | Printed StoreLookupFailed | HeaderWritten | RowWritten _ => true
  | _ => false
  end.

(** The boxes the map endpoint was asked for, in order. *)
Definition map_queries (tr : list event) : list box :=
  omap (fun e => match e with Requested (MapQuery b) => Some b | _ => None end) tr.

Definition is_pause (e : event) : bool :=
  match e with
  | Slept => true
  | _ => false
  end.

Definition is_box_failure (e : event) : bool :=
  match e with
  | Printed (BoxLookupFailed _ _) => true
  | _ => false
  end.

(** How many times the run slept, and how many failed boxes it reported. *)
Definition pauses (tr : list event) : nat :=
  length (filter (fun e => is_pause e = true) tr).

Definition box_failures (tr : list event) : nat :=
  length (filter (fun e => is_box_failure e = true) tr).

(** No two members of the list are equal for Python. *)
Definition pairwise_distinct (l : list value) : Prop :=
  forall i j x y,
    i < j -> l !! i = Some x -> l !! j = Some y ->
    py_eq x y = false /\ py_eq y x = false.

(** The admitted identifiers are in the seen set as such, and distinct. *)
Definition admitted_once (s : state) : Prop :=
  (forall x, x ∈ admitted_ids (trace s) -> x ∈ seen_ids s)
  /\ pairwise_distinct (admitted_ids (trace s)).

(** What every record handed to [write_csv_row] has. *)
Definition written_record (marker : dict) : Prop :=
  (marker !! "country" = Some (VStr "ES")
   \/ marker !! "country" = Some (VStr "PT")
   \/ marker !! "country" = Some (VStr "AD"))
  /\ (exists url, marker !! "website_url" = Some (VStr url))
  /\ (exists url, marker !! "maps_url" = Some (VStr url))
  /\ is_Some (marker !! "has_enabled_affiliate").

(** As many rows as admitted markers. *)
Definition rows_match (s : state) : Prop :=
  length (written_markers (trace s)) = length (admitted_ids (trace s)).

(** The same, but for one admitted marker that has no row yet. *)
Definition rows_lag (s : state) : Prop :=
  length (written_markers (trace s)) <= length (admitted_ids (trace s))
  /\ length (admitted_ids (trace s)) <= length (written_markers (trace s)) + 1.

(** * Properties *)

(** ** The grid *)

Lemma steps_left_past span : (span < 0)%Q -> steps_left span = 0.
Proof.
  intros H. unfold steps_left.
  assert (L : (span / BOX_SIZE < 0)%Q).
  { apply Qlt_shift_div_r; [reflexivity|]. by rewrite Qmult_0_l. }
  pose proof (Qfloor_le (span / BOX_SIZE)) as F.
  assert (G : (inject_Z (Qfloor (span / BOX_SIZE)) < inject_Z 0)%Q).
  { change (inject_Z 0) with 0%Q. lra. }
  rewrite <- Zlt_Qlt in G. lia.
Qed.

Lemma lng_loop_length center_lat center_lng end_lng :
  length (lng_loop center_lat center_lng end_lng)
  = steps_left (end_lng - center_lng).
Proof.
  funelim (lng_loop center_lat center_lng end_lng).
  - symmetry. apply steps_left_past. lra.
  - simpl. rewrite H. rewrite (steps_left_step (end_lng - center_lng)) by lra.
    f_equal. unfold steps_left.
    assert (E : (end_lng - (center_lng + BOX_SIZE) == end_lng - center_lng - BOX_SIZE)%Q)
      by ring.
    by rewrite E.
Qed.

Lemma steps_left_proper a b : (a == b)%Q -> steps_left a = steps_left b.
Proof. intros E. unfold steps_left. by rewrite E. Qed.

Lemma steps_left_axis_tiles start_ end_ :
  (start_ <= end_)%Q -> steps_left (end_ - start_) = axis_tiles start_ end_.
Proof.
  intros H. unfold steps_left, axis_tiles.
  rewrite Qabs_pos by lra. reflexivity.
Qed.

Lemma steps_left_axis_tiles_rev start_ end_ :
  (end_ <= start_)%Q -> steps_left (start_ - end_) = axis_tiles start_ end_.
Proof.
  intros H. unfold steps_left, axis_tiles.
  rewrite Qabs_neg by lra.
  assert (E : (- (end_ - start_) == start_ - end_)%Q) by ring.
  by rewrite E.
Qed.

Lemma inject_Z_of_nat_S k :
  (inject_Z (Z.of_nat (S k)) == inject_Z (Z.of_nat k) + 1)%Q.
Proof. rewrite Nat2Z.inj_succ. unfold Z.succ. apply inject_Z_succ. Qed.

Lemma lng_loop_lookup center_lat center_lng end_lng j b :
  lng_loop center_lat center_lng end_lng !! j = Some b ->
  exists lng, b = box_at center_lat lng
    /\ (lng == center_lng + inject_Z (Z.of_nat j) * BOX_SIZE)%Q.
Proof.
  revert j. funelim (lng_loop center_lat center_lng end_lng); intros j Hj.
  - done.
  - destruct j as [|j]; simpl in Hj.
    + injection Hj as <-. exists center_lng. split; [done|]. simpl. ring.
    + destruct (H _ _ Hj) as (lng & -> & E). exists lng. split; [done|].
      rewrite E, inject_Z_of_nat_S. ring.
Qed.

Lemma lat_loop_rows center_lat end_lat start_lng end_lng :
  exists rows : list (list box),
    lat_loop center_lat end_lat start_lng end_lng = concat rows
    /\ length rows = steps_left (center_lat - end_lat)
    /\ forall i row, rows !! i = Some row ->
         exists lat, row = lng_loop lat start_lng end_lng
           /\ (lat == center_lat - inject_Z (Z.of_nat i) * BOX_SIZE)%Q.
Proof.
  funelim (lat_loop center_lat end_lat start_lng end_lng).
  - exists []. split; [done|]. split; [|done].
    symmetry. apply steps_left_past. lra.
  - destruct H as (rows & -> & Hlen & Hrows).
    exists (lng_loop center_lat start_lng end_lng :: rows).
    split; [done|]. split.
    + simpl. rewrite Hlen, (steps_left_step (center_lat - end_lat)) by lra.
      f_equal. apply steps_left_proper. ring.
    + intros [|i] row Hrow; simpl in Hrow.
      * injection Hrow as <-. exists center_lat. split; [done|]. simpl. ring.
      * destruct (Hrows _ _ Hrow) as (lat & -> & E). exists lat.
        split; [done|]. rewrite E, inject_Z_of_nat_S. ring.
Qed.

Lemma axis_tiles_degenerate start_ end_ :
  (start_ == end_)%Q -> axis_tiles start_ end_ = 1.
Proof.
  intros E. unfold axis_tiles.
  assert (Z : (Qabs (end_ - start_) / BOX_SIZE == 0)%Q).
  { rewrite Qabs_pos by lra. rewrite E. unfold BOX_SIZE. field. }
  by rewrite Z.
Qed.

(** C4.  For a pair of ranges that the loops can walk (latitude start not
    below its end, longitude start not above its end) the boxes come in
    [floor(|end - start| / step) + 1] rows of [floor(|end - start| / step) + 1]
    boxes each, the step being [BOX_SIZE]: row [i], column [j] is the box
    centred [i] steps south and [j] steps east of the start.  A span that is
    not a multiple of the step still gets its last tile, and a range whose
    start equals its end contributes exactly one position. *)
Theorem grid_tile_count (start_lat end_lat start_lng end_lng : Q) :
  (end_lat <= start_lat)%Q -> (start_lng <= end_lng)%Q ->
  exists rows : list (list box),
    boxes_of_ranges ((start_lat, end_lat), (start_lng, end_lng)) = concat rows
    /\ length rows = axis_tiles start_lat end_lat
    /\ (forall i row, rows !! i = Some row ->
          length row = axis_tiles start_lng end_lng
          /\ forall j b, row !! j = Some b ->
               exists lat lng, b = box_at lat lng
                 /\ (lat == start_lat - inject_Z (Z.of_nat i) * BOX_SIZE)%Q
                 /\ (lng == start_lng + inject_Z (Z.of_nat j) * BOX_SIZE)%Q)
    /\ ((start_lat == end_lat)%Q -> length rows = 1)
    /\ ((start_lng == end_lng)%Q -> forall row, row ∈ rows -> length row = 1).
Proof.
  intros Hlat Hlng. simpl.
  destruct (lat_loop_rows start_lat end_lat start_lng end_lng)
    as (rows & Hrows & Hlen & Hrow).
  rewrite steps_left_axis_tiles_rev in Hlen by done.
  assert (Hwidth : forall i row, rows !! i = Some row ->
            length row = axis_tiles start_lng end_lng).
  { intros i row Hi. destruct (Hrow _ _ Hi) as (lat & -> & _).
    by rewrite lng_loop_length, steps_left_axis_tiles. }
  exists rows. repeat split.
  - done.
  - done.
  - by eapply Hwidth.
  - intros j b Hj. destruct (Hrow _ _ H) as (lat & -> & E).
    destruct (lng_loop_lookup _ _ _ _ _ Hj) as (lng & -> & E').
    by exists lat, lng.
  - intros E. by rewrite Hlen, axis_tiles_degenerate.
  - intros E row [i Hi]%list_elem_of_lookup.
    by rewrite (Hwidth _ _ Hi), axis_tiles_degenerate.
Qed.

Lemma grid_tile_count_witness :
  exists rows : list (list box),
    boxes_of_ranges ((30, 27), (-20, -12))%Q = concat rows
    /\ length rows = axis_tiles 30 27
    /\ (forall i row, rows !! i = Some row ->
          length row = axis_tiles (-20) (-12)
          /\ forall j b, row !! j = Some b ->
               exists lat lng, b = box_at lat lng
                 /\ (lat == 30 - inject_Z (Z.of_nat i) * BOX_SIZE)%Q
                 /\ (lng == -20 + inject_Z (Z.of_nat j) * BOX_SIZE)%Q)
    /\ ((30 == 27)%Q -> length rows = 1)
    /\ ((-20 == -12)%Q -> forall row, row ∈ rows -> length row = 1).
Proof. apply grid_tile_count; by vm_compute. Defined.

Example configured_grid_sizes :
  (fun r => length (boxes_of_ranges r)) <$> zip LATITUDE_RANGES LONGITUDE_RANGES
  = [12 * 15; 3 * 6; 1; 1].
Proof. by vm_compute. Qed.

(** C9.  Latitude is only walked downwards and longitude only upwards: a
    pair whose latitude start is below its end, or whose longitude start is
    above its end, yields no box at all, silently. *)
Theorem wrong_direction_yields_nothing (start_lat end_lat start_lng end_lng : Q) :
  (start_lat < end_lat)%Q \/ (end_lng < start_lng)%Q ->
  boxes_of_ranges ((start_lat, end_lat), (start_lng, end_lng)) = [].
Proof.
  intros [H|H]; simpl.
  - simp lat_loop. destruct (Qlt_le_dec start_lat end_lat); [done|lra].
  - funelim (lat_loop start_lat end_lat start_lng end_lng); [done|].
    rewrite H by done. 
    simp lng_loop. destruct (Qlt_le_dec end_lng start_lng); [done|lra].
Qed.

Lemma wrong_direction_yields_nothing_witness :
  boxes_of_ranges ((27, 30), (-20, -12))%Q = []
  /\ boxes_of_ranges ((30, 27), (-12, -20))%Q = [].
Proof.
  split; apply wrong_direction_yields_nothing; [left|right]; by vm_compute.
Defined.

(** Every coordinate of the grid is a multiple of a quarter degree below 64
    in magnitude, so binary64 represents it, and the sums and differences
    that produce it, exactly: on the configured ranges the rationals of the
    model and the floats of the script agree. *)
Example grid_coordinates_exact :
  forallb (fun b =>
             quarter_degree (box_center_lat b) && quarter_degree (box_center_lng b)
             && quarter_degree (box_ne_lat b) && quarter_degree (box_ne_lng b)
             && quarter_degree (box_sw_lat b) && quarter_degree (box_sw_lng b))
    generate_bounding_boxes = true.
Proof. by vm_compute. Qed.

(** ** Enrichment: merge and fallback *)

Lemma merge_into_union (marker data : dict) : merge_into marker data = marker ∪ data.
Proof.
  unfold merge_into.
  apply (map_fold_weak_ind (fun r d => r = marker ∪ d)).
  - by rewrite (right_id_L ∅ (∪)).
  - intros k v d r Hk ->. unfold setdefault.
    rewrite lookup_union, Hk.
    destruct (marker !! k) as [v'|] eqn:E; simpl.
    + apply map_eq. intros i. rewrite !lookup_union.
      destruct (decide (k = i)) as [<-|Hne].
      * rewrite lookup_insert_eq, E, Hk. done.
      * rewrite lookup_insert_ne by done. done.
    + by rewrite insert_union_r.
Qed.

Lemma merge_into_lookup (marker data : dict) (k : string) :
  merge_into marker data !! k
  = match marker !! k with Some v => Some v | None => data !! k end.
Proof.
  rewrite merge_into_union, lookup_union.
  destruct (marker !! k), (data !! k); done.
Qed.

Lemma requests_made_app tr tr' :
  requests_made (tr ++ tr') = requests_made tr + requests_made tr'.
Proof. unfold requests_made. by rewrite filter_app, length_app. Qed.

Lemma fetch_store_data_run w store_id marker s :
  let n := requests_made (trace s) in
  fetch_store_data w store_id marker s =
  match detail_payload (http_get w n (StoreQuery store_id)) with
  | Some data =>
      (Ok (merge_into marker data), logged s [Requested (StoreQuery store_id)])
  | None =>
      (Ok (match detail_payload (http_get w (S n) (DealerQuery store_id)) with
           | Some data => merge_into marker data
           | None => marker
           end),
       logged s [Requested (StoreQuery store_id); Printed StoreLookupFailed;
                 Requested (DealerQuery store_id)])
  end.
Proof.
  intros n.
  assert (Hn : requests_made
                 ((trace s ++ [Requested (StoreQuery store_id)])
                  ++ [Printed StoreLookupFailed]) = S n).
  { rewrite !requests_made_app. unfold requests_made; simpl. subst n.
    unfold requests_made. lia. }
  assert (Hlog : forall a b c : event, ((trace s ++ [a]) ++ [b]) ++ [c] = trace s ++ [a; b; c]).
  { intros. by rewrite <- !app_assoc. }
  unfold fetch_store_data, try_except, mbind, M_bind, requests_get, lift, emit,
    mret, M_ret, logged; simpl.
  fold n.
  destruct (http_get w n (StoreQuery store_id)) as [|[[] [[]|]]]; simpl;
    try done;
    rewrite Hn;
    destruct (http_get w (S n) (DealerQuery store_id)) as [|[[] [[]|]]];
    simpl; by rewrite ?Hlog.
Qed.

(** C1.  Merging a detail payload into a marker only fills: a key the
    marker has keeps its value, a key it lacks takes the payload's.
    [fetch_store_data] merges in this way the payload of the store endpoint
    when that lookup succeeds, else the payload of the dealer endpoint when
    that one succeeds, and returns the marker as it was when neither does.
    Marker [{a: 1}] and payload [{a: 2, b: 3}] give [{a: 1, b: 3}], from
    either endpoint. *)
Theorem fill_only_merge :
  (forall (marker data : dict) (k : string),
     merge_into marker data !! k
     = match marker !! k with Some v => Some v | None => data !! k end)
  /\ (forall w store_id marker s,
        let n := requests_made (trace s) in
        let from_store := detail_payload (http_get w n (StoreQuery store_id)) in
        let from_dealer :=
          detail_payload (http_get w (S n) (DealerQuery store_id)) in
        exists out s',
          fetch_store_data w store_id marker s = (Ok out, s')
          /\ match from_store, from_dealer with
             | Some data, _ | None, Some data =>
                 forall k,
                   out !! k
                   = match marker !! k with
                     | Some v => Some v
                     | None => data !! k
                     end
             | None, None => out = marker
             end)
  /\ (fetch_store_data payload_world (VStr "1") {["a" := VInt 1]} initial_state).1
     = Ok (<["a" := VInt 1]> {["b" := VInt 3]})
  /\ (fetch_store_data payload_world (VStr "2") {["a" := VInt 1]} initial_state).1
     = Ok (<["a" := VInt 1]> {["b" := VInt 3]})
  /\ merge_into ({["a" := VInt 1]} : dict) (<["a" := VInt 2]> {["b" := VInt 3]})
     = <["a" := VInt 1]> {["b" := VInt 3]}.
Proof.
  split_and!.
  - apply merge_into_lookup.
  - intros w store_id marker s n from_store from_dealer.
    pose proof (fetch_store_data_run w store_id marker s) as Hrun.
    simpl in Hrun. fold n in Hrun. fold from_store from_dealer in Hrun.
    rewrite Hrun.
    destruct from_store as [data|].
    + eexists _, _. split; [done|]. intros k. apply merge_into_lookup.
    + destruct from_dealer as [data|].
      * eexists _, _. split; [done|]. intros k. apply merge_into_lookup.
      * by eexists _, _.
  - by vm_compute.
  - by vm_compute.
  - by vm_compute.
Qed.

Lemma detail_payload_None r :
  detail_payload r = None <->
  r = ConnectionFailed
  \/ (exists body, r = Responded (Response false body))
  \/ r = Responded (Response true None)
  \/ (exists data, r = Responded (Response true (Some data))
                   /\ forall fields, data <> VDict fields).
Proof.
  split.
  - destruct r as [|[[] [data|]]]; simpl; intros H.
    + by left.
    + do 3 right. exists data. split; [done|]. intros fields ->. done.
    + right. right. by left.
    + right. left. eauto.
    + right. left. eauto.
  - intros [->|[[body ->]|[->|(data & -> & Hne)]]]; simpl; try done.
    destruct data; try done. by destruct (Hne fields).
Qed.

(** C3.  When the store lookup succeeds the dealer endpoint is not asked.
    When it fails, for whichever reason (no connection, a status that is not
    a success, a body that is not JSON, JSON that is not an object), the
    dealer endpoint is asked exactly once and the store endpoint not again;
    if that fails too the marker is returned as it was.  No exception leaves
    the function. *)
Theorem two_tier_fallback (w : world) (store_id : value) (marker : dict)
    (s : state) :
  let n := requests_made (trace s) in
  let tier1 := detail_payload (http_get w n (StoreQuery store_id)) in
  let tier2 := detail_payload (http_get w (S n) (DealerQuery store_id)) in
  (forall data,
     tier1 = Some data ->
     fetch_store_data w store_id marker s
     = (Ok (merge_into marker data), logged s [Requested (StoreQuery store_id)]))
  /\ (tier1 = None ->
      fetch_store_data w store_id marker s
      = (Ok (match tier2 with
             | Some data => merge_into marker data
             | None => marker
             end),
         logged s [Requested (StoreQuery store_id); Printed StoreLookupFailed;
                   Requested (DealerQuery store_id)]))
  /\ (exists out s', fetch_store_data w store_id marker s = (Ok out, s'))
  /\ (forall r,
        detail_payload r = None <->
        r = ConnectionFailed
        \/ (exists body, r = Responded (Response false body))
        \/ r = Responded (Response true None)
        \/ (exists data, r = Responded (Response true (Some data))
                         /\ forall fields, data <> VDict fields)).
Proof.
  intros n tier1 tier2. pose proof (fetch_store_data_run w store_id marker s) as H.
  simpl in H. fold n in H. fold tier1 tier2 in H. split_and!.
  - intros data Hd. by rewrite H, Hd.
  - intros Hd. by rewrite H, Hd.
  - rewrite H. destruct tier1; eauto.
  - apply detail_payload_None.
Qed.

Lemma two_tier_fallback_witness :
  fetch_store_data fallback_world (VStr "7") (marker_of "7" "PT") initial_state
  = (Ok (merge_into (marker_of "7" "PT") {["phone" := VStr "123"]}),
     logged initial_state
       [Requested (StoreQuery (VStr "7")); Printed StoreLookupFailed;
        Requested (DealerQuery (VStr "7"))]).
Proof.
  exact (proj1 (proj2 (two_tier_fallback fallback_world (VStr "7")
                         (marker_of "7" "PT") initial_state)) eq_refl).
Defined.

Lemma fetch_store_data_total w store_id marker s :
  exists out events,
    fetch_store_data w store_id marker s
    = (Ok out, logged s (Requested (StoreQuery store_id) :: events))
    /\ (events = []
        \/ events = [Printed StoreLookupFailed; Requested (DealerQuery store_id)])
    /\ marker ⊆ out.
Proof.
  rewrite fetch_store_data_run.
  destruct (detail_payload _) as [data|].
  - exists (merge_into marker data), []. split_and!; [done|by left|].
    rewrite merge_into_union. apply map_union_subseteq_l.
  - eexists _, _. split_and!; [done|by right|].
    destruct (detail_payload _) as [data|]; [|done].
    rewrite merge_into_union. apply map_union_subseteq_l.
Qed.

#[local] Arguments list_contains : simpl never.
#[local] Arguments set_contains : simpl never.
#[local] Arguments fetch_store_data : simpl never.
#[local] Arguments extract_urls_from_html : simpl never.

Lemma fetch_store_data_locals w store_id marker s out s' :
  fetch_store_data w store_id marker s = (Ok out, s') ->
  seen_ids s' = seen_ids s /\ wrote_header s' = wrote_header s.
Proof.
  destruct (fetch_store_data_total w store_id marker s)
    as (out' & events & -> & _). by intros [= _ <-].
Qed.

Lemma process_marker_step w marker s :
  marker_step w s marker (process_marker w marker s).
Proof.
  destruct marker as [| | | | | |fields];
    try (apply step_not_a_dict; discriminate).
  unfold process_marker, mbind, M_bind, lift, seen_contains, seen_add; simpl.
  destruct (set_contains (seen_ids s) (default VNone (fields !! "id")))
    as [[]|e] eqn:Hseen.
  - by apply step_duplicate.
  - fold (with_seen (default VNone (fields !! "id")) s).
    destruct (list_contains ALLOWED_COUNTRIES (default VNone (fields !! "country")))
      eqn:Hcountry; simpl.
    + destruct (fetch_store_data_total w (default VNone (fields !! "id")) fields
                  (with_seen (default VNone (fields !! "id")) s))
        as (enriched & events & Hfetch & _ & _).
      remember (logged _ _) as s1 eqn:Hs1 in Hfetch. clear Hs1 events.
      rewrite Hfetch.
      destruct (extract_urls_from_html w (default (VStr "") (enriched !! "store_html")))
        as [[website_url maps_url]|e] eqn:Hurls.
      * pose proof (step_written w s fields enriched s1 website_url maps_url
                      Hseen Hcountry Hfetch Hurls) as Hstep.
        unfold get_wrote_header, write_csv_header, write_csv_row,
          set_wrote_header, emit, mret, M_ret; simpl.
        destruct (wrote_header s1) eqn:Hheader; simpl in *;
          rewrite <- ?app_assoc, ?Hheader; exact Hstep.
      * eapply step_extraction_raises; done.
    + by apply step_filtered.
  - unfold set_contains in Hseen.
    destruct (hashable (default VNone (fields !! "id"))) eqn:Hhash; [done|].
    injection Hseen as <-. by apply step_unhashable.
Qed.

(** ** Invariants of the loops *)

Lemma logged_logged s events events' :
  logged s (events ++ events') = logged (logged s events) events'.
Proof. unfold logged; simpl. by rewrite app_assoc. Qed.

Lemma scan_box_run w b s :
  let r := http_get w (requests_made (trace s)) (MapQuery b) in
  scan_box w b s =
  match map_data r with
  | None =>
      (Ok (), logged s [Requested (MapQuery b);
                        Printed (BoxLookupFailed b (failure_of r))])
  | Some data => after_map_query w data (logged s [Requested (MapQuery b)])
  end.
Proof.
  unfold scan_box, after_map_query, try_except, mbind, M_bind, requests_get,
    lift, emit, mret, M_ret, logged; simpl.
  destruct (http_get w (requests_made (trace s)) (MapQuery b)) as [|[[] [data|]]];
    simpl; by rewrite <- ?app_assoc.
Qed.

Lemma for_each_preserves {A} (I : state -> Prop) (body : A -> M unit) l :
  (forall x, preserves I (body x)) -> preserves I (for_each body l).
Proof.
  intros Hbody. induction l as [|x l IH]; intros s Hs; [done|].
  simpl. unfold mbind, M_bind.
  specialize (Hbody x s Hs).
  destruct (body x s) as [[[]|e] s']; simpl in *; [by apply IH|done].
Qed.

Lemma after_map_query_preserves (I : state -> Prop) w data :
  (forall s e, I s -> is_neutral e = true -> I (logged s [e])) ->
  (forall marker, preserves I (process_marker w marker)) ->
  preserves I (after_map_query w data).
Proof.
  intros Hlog Hmarker s Hs.
  unfold after_map_query, mbind, M_bind, lift.
  destruct (py_get data "markers" (VList [])) as [markers|e]; [|done].
  destruct (py_iter markers) as [items|e]; [|done].
  pose proof (for_each_preserves I _ items Hmarker s Hs) as Hloop.
  destruct (for_each (process_marker w) items s) as [[[]|e] s']; simpl in *;
    [|done].
  by apply (Hlog s' Slept).
Qed.

Lemma scan_box_preserves (I : state -> Prop) w b :
  (forall s e, I s -> is_neutral e = true -> I (logged s [e])) ->
  (forall marker, preserves I (process_marker w marker)) ->
  preserves I (scan_box w b).
Proof.
  intros Hlog Hmarker s Hs. rewrite scan_box_run.
  destruct (map_data _) as [data|].
  - apply after_map_query_preserves; [done..|]. by apply Hlog.
  - change (logged s [?a; ?b]) with (logged s ([a] ++ [b])).
    rewrite logged_logged.
    apply Hlog; [|done]. by apply Hlog.
Qed.

Lemma scan_preserves (I : state -> Prop) w boxes :
  (forall s e, I s -> is_neutral e = true -> I (logged s [e])) ->
  (forall marker, preserves I (process_marker w marker)) ->
  preserves I (scan w boxes).
Proof.
  intros Hlog Hmarker. apply for_each_preserves.
  intros b. by apply scan_box_preserves.
Qed.

Lemma main_invariant (I : state -> Prop) w :
  I initial_state ->
  (forall s e, I s -> is_neutral e = true -> I (logged s [e])) ->
  (forall marker, preserves I (process_marker w marker)) ->
  I (main w).2.
Proof.
  intros Hinit Hlog Hmarker. unfold main.
  destruct (sink_opens w); [|done].
  by apply scan_preserves.
Qed.

(** ** Deduplication *)

Lemma py_eq_refl v : hashable v = true -> py_eq v v = true.
Proof.
  assert (R : forall x, Qeq_bool x x = true)
    by (intros x; apply Qeq_bool_iff; reflexivity).
  destruct v as [|[]|n|x|s| |]; unfold py_eq, as_number; try done.
  by rewrite bool_decide_true.
Qed.

Lemma set_contains_Ok seen x b :
  set_contains seen x = Ok b ->
  hashable x = true /\ existsb (py_eq x) seen = b.
Proof.
  unfold set_contains. destruct (hashable x); [|done]. by intros [= <-].
Qed.

Lemma set_contains_cons seen x y :
  set_contains seen x = Ok true -> set_contains (y :: seen) x = Ok true.
Proof.
  intros [Hh He]%set_contains_Ok. unfold set_contains. rewrite Hh. simpl.
  by rewrite He, orb_true_r.
Qed.

Lemma set_contains_head seen x b :
  set_contains seen x = Ok b -> set_contains (x :: seen) x = Ok true.
Proof.
  intros [Hh _]%set_contains_Ok. unfold set_contains. rewrite Hh. simpl.
  by rewrite py_eq_refl.
Qed.

Lemma admitted_ids_app tr tr' :
  admitted_ids (tr ++ tr') = admitted_ids tr ++ admitted_ids tr'.
Proof. apply omap_app. Qed.

Lemma admitted_seen_neutral s e :
  admitted_seen s -> is_neutral e = true -> admitted_seen (logged s [e]).
Proof.
  intros Hs He store_id. simpl. rewrite admitted_ids_app.
  destruct e as [[]| | | |]; try done; simpl; rewrite app_nil_r; apply Hs.
Qed.

Lemma admitted_seen_fetch w store_id fields s b enriched s1 :
  admitted_seen s ->
  set_contains (seen_ids s) store_id = Ok b ->
  fetch_store_data w store_id fields (with_seen store_id s) = (Ok enriched, s1) ->
  admitted_seen s1 /\ seen_ids s1 = store_id :: seen_ids s.
Proof.
  intros Hs Hseen Hfetch.
  destruct (fetch_store_data_total w store_id fields (with_seen store_id s))
    as (out & events & Hrun & Hevents & _).
  rewrite Hrun in Hfetch. injection Hfetch as _ <-. split; [|done].
  intros x. simpl. rewrite admitted_ids_app. simpl.
  assert (admitted_ids events = []) as -> by (by destruct Hevents as [->| ->]).
  rewrite elem_of_app, list_elem_of_singleton. intros [Hx| ->].
  - by apply set_contains_cons, Hs.
  - by eapply set_contains_head.
Qed.

Lemma process_marker_admitted_seen w marker :
  preserves admitted_seen (process_marker w marker).
Proof.
  intros s Hs.
  destruct (process_marker_step w marker s)
    as [ | | |fields store_id Hseen _
        |fields enriched s1 e store_id Hseen _ Hfetch _
        |fields enriched s1 website_url maps_url store_id affiliate record
           Hseen _ Hfetch _]; simpl; try done.
  - intros x Hx. by apply set_contains_cons, Hs.
  - by destruct (admitted_seen_fetch _ _ _ _ _ _ _ Hs Hseen Hfetch).
  - destruct (admitted_seen_fetch _ _ _ _ _ _ _ Hs Hseen Hfetch) as [H1 _].
    intros x. simpl. rewrite !admitted_ids_app.
    assert (admitted_ids (if wrote_header s1 then [] else [HeaderWritten]) = [])
      as -> by (by destruct (wrote_header s1)).
    simpl. rewrite app_nil_r. apply H1.
Qed.

Lemma process_marker_seen_grows w marker seen0 :
  preserves (fun s => seen0 `suffix_of` seen_ids s) (process_marker w marker).
Proof.
  intros s Hs.
  destruct (process_marker_step w marker s)
    as [ | | |fields store_id Hseen _
        |fields enriched s1 e store_id Hseen _ Hfetch _
        |fields enriched s1 website_url maps_url store_id affiliate record
           Hseen _ Hfetch _]; simpl; try done.
  - by apply suffix_cons_r.
  - destruct (fetch_store_data_locals _ _ _ _ _ _ Hfetch) as [-> _].
    by apply suffix_cons_r.
  - destruct (fetch_store_data_locals _ _ _ _ _ _ Hfetch) as [-> _].
    by apply suffix_cons_r.
Qed.

(** C2.  A marker whose identifier is in the seen set is skipped whatever
    else it holds, with no effect at all.  An identifier met for the first
    time enters the set before the country test, so it is in the set also
    when the marker is then rejected.  Over any scan the set only grows, and
    it always holds every identifier admitted so far. *)
Theorem dedup_contract (w : world) :
  (forall fields s,
     set_contains (seen_ids s) (default VNone (fields !! "id")) = Ok true ->
     process_marker w (VDict fields) s = (Ok (), s))
  /\ (forall fields s,
        let store_id := default VNone (fields !! "id") in
        set_contains (seen_ids s) store_id = Ok false ->
        seen_ids (process_marker w (VDict fields) s).2 = store_id :: seen_ids s
        /\ (list_contains ALLOWED_COUNTRIES (default VNone (fields !! "country"))
              = false ->
            process_marker w (VDict fields) s = (Ok (), with_seen store_id s)))
  /\ (forall boxes s,
        let s' := (scan w boxes s).2 in
        seen_ids s `suffix_of` seen_ids s'
        /\ (admitted_seen s -> admitted_seen s'))
  /\ admitted_seen (main w).2.
Proof.
  split_and!.
  - intros fields s Hseen.
    unfold process_marker, mbind, M_bind, lift, seen_contains; simpl.
    by rewrite Hseen.
  - intros fields s store_id Hseen. split.
    + pose proof (process_marker_step w (VDict fields) s) as Hstep.
      inversion Hstep as [marker Hno|fields' Hhash|fields' Hdup
            |fields' store_id' Hseen' _
            |fields' enriched s1 e store_id' Hseen' _ Hfetch _
            |fields' enriched s1 website_url maps_url store_id' affiliate record
               Hseen' _ Hfetch _]; subst; simpl.
      * by destruct (Hno fields).
      * apply set_contains_Ok in Hseen as [? _]. fold store_id in Hhash. congruence.
      * fold store_id in Hdup. congruence.
      * done.
      * by destruct (fetch_store_data_locals _ _ _ _ _ _ Hfetch) as [-> _].
      * by destruct (fetch_store_data_locals _ _ _ _ _ _ Hfetch) as [-> _].
    + intros Hcountry.
      unfold process_marker, mbind, M_bind, lift, seen_contains, seen_add; simpl.
      fold store_id. rewrite Hseen. by rewrite Hcountry.
  - intros boxes s s'. split.
    + apply (scan_preserves (fun s' => seen_ids s `suffix_of` seen_ids s')).
      * intros s0 e Hs0 _. exact Hs0.
      * intros marker. apply process_marker_seen_grows.
      * done.
    + apply scan_preserves;
        [apply admitted_seen_neutral|apply process_marker_admitted_seen].
  - apply main_invariant;
      [|apply admitted_seen_neutral|apply process_marker_admitted_seen].
    by intros store_id ?%elem_of_nil.
Qed.

Lemma dedup_contract_witness :
  process_marker scenario_world (VDict (marker_of "1" "ES"))
    (State [VStr "1"] false [])
  = (Ok (), State [VStr "1"] false []).
Proof.
  exact (proj1 (dedup_contract scenario_world) (marker_of "1" "ES")
           (State [VStr "1"] false []) eq_refl).
Defined.

(** ** The header *)

Lemma header_lazy_logged s events :
  header_lazy s -> Forall no_write events -> header_lazy (logged s events).
Proof.
  unfold header_lazy; simpl. intros Hs Hev.
  destruct (wrote_header s).
  - destruct Hs as (pre & marker & post & -> & Hpre & Hpost).
    exists pre, marker, (post ++ events). split_and!; [|done|].
    + by rewrite <- app_assoc.
    + apply Forall_app. split; [done|].
      eapply Forall_impl; [exact Hev|]. by intros e [? _].
  - by apply Forall_app.
Qed.

Lemma header_lazy_neutral s e :
  header_lazy s -> is_neutral e = true -> header_lazy (logged s [e]).
Proof.
  intros Hs He. apply header_lazy_logged; [done|].
  apply Forall_singleton. by destruct e as [[]| | | |].
Qed.

Lemma header_lazy_fetch w store_id fields s enriched s1 :
  header_lazy s ->
  fetch_store_data w store_id fields (with_seen store_id s) = (Ok enriched, s1) ->
  header_lazy s1.
Proof.
  intros Hs Hfetch.
  destruct (fetch_store_data_total w store_id fields (with_seen store_id s))
    as (out & events & Hrun & Hevents & _).
  rewrite Hrun in Hfetch. injection Hfetch as _ <-.
  apply (header_lazy_logged (with_seen store_id s)); [done|].
  destruct Hevents as [->| ->]; repeat constructor.
Qed.

Lemma process_marker_header_lazy w marker :
  preserves header_lazy (process_marker w marker).
Proof.
  intros s Hs.
  destruct (process_marker_step w marker s)
    as [ | | |fields store_id Hseen _
        |fields enriched s1 e store_id Hseen _ Hfetch _
        |fields enriched s1 website_url maps_url store_id affiliate record
           Hseen _ Hfetch _]; simpl; try done.
  - by eapply header_lazy_fetch.
  - pose proof (header_lazy_fetch _ _ _ _ _ _ Hs Hfetch) as H1.
    unfold header_lazy in *; simpl.
    destruct (wrote_header s1); simpl.
    + destruct H1 as (pre & marker & post & -> & Hpre & Hpost).
      exists pre, marker, (post ++ [RowWritten record]). split_and!; [|done|].
      * by rewrite <- app_assoc.
      * apply Forall_app. split; [done|]. by apply Forall_singleton.
    + exists (trace s1), record, []. split_and!; done.
Qed.

Lemma main_header_lazy w : header_lazy (main w).2.
Proof.
  apply main_invariant.
  - by apply Forall_nil.
  - apply header_lazy_neutral.
  - apply process_marker_header_lazy.
Qed.

Lemma no_write_filter tr :
  Forall no_write tr ->
  headers_written tr = 0 /\ written_markers tr = [] /\ csv_rows tr = [].
Proof.
  unfold headers_written.
  induction 1 as [|e tr [Hh Hr] _ (IH1 & IH2 & IH3)]; [done|].
  rewrite filter_cons_False by congruence.
  destruct e; try done. 
Qed.

Lemma no_header_filter tr :
  Forall (fun e => is_header e = false) tr ->
  headers_written tr = 0 /\ csv_rows tr = row_cells <$> written_markers tr.
Proof.
  unfold headers_written.
  induction 1 as [|e tr Hh _ (IH1 & IH2)]; [done|].
  rewrite filter_cons_False by congruence.
  destruct e; try done. simpl. by rewrite IH2.
Qed.

Lemma headers_written_app tr tr' :
  headers_written (tr ++ tr') = headers_written tr + headers_written tr'.
Proof. unfold headers_written. by rewrite filter_app, length_app. Qed.

Lemma written_markers_app tr tr' :
  written_markers (tr ++ tr') = written_markers tr ++ written_markers tr'.
Proof. apply omap_app. Qed.

Lemma csv_rows_app tr tr' : csv_rows (tr ++ tr') = csv_rows tr ++ csv_rows tr'.
Proof. apply flat_map_app. Qed.

Lemma written_markers_elem marker tr :
  marker ∈ written_markers tr <-> RowWritten marker ∈ tr.
Proof.
  unfold written_markers. rewrite list_elem_of_omap. split.
  - intros (e & He & Hm). destruct e; try done. by injection Hm as ->.
  - intros H. by exists (RowWritten marker).
Qed.

Lemma header_lazy_shape s :
  header_lazy s ->
  headers_written (trace s) <= 1
  /\ ((forall marker, RowWritten marker ∉ trace s) -> HeaderWritten ∉ trace s)
  /\ csv_rows (trace s) = match written_markers (trace s) with
                          | [] => []
                          | markers => header_cells :: (row_cells <$> markers)
                          end.
Proof.
  unfold header_lazy. intros H.
  destruct (wrote_header s).
  - destruct H as (pre & marker & post & Htr & Hpre & Hpost).
    destruct (no_write_filter _ Hpre) as (P1 & P2 & P3).
    destruct (no_header_filter _ Hpost) as (Q1 & Q2).
    split_and!.
    + rewrite Htr, headers_written_app, P1.
      change (HeaderWritten :: RowWritten marker :: post)
        with ([HeaderWritten; RowWritten marker] ++ post).
      rewrite headers_written_app, Q1. by vm_compute.
    + intros Hno. destruct (Hno marker). rewrite Htr.
      apply elem_of_app. right. apply list_elem_of_further, list_elem_of_here.
    + rewrite Htr, csv_rows_app, written_markers_app, P2, P3. simpl.
      by rewrite Q2.
  - destruct (no_write_filter _ H) as (P1 & P2 & P3). split_and!.
    + rewrite P1. lia.
    + intros _ Hh. rewrite Forall_forall in H.
      by destruct (H _ Hh).
    + by rewrite P2, P3.
Qed.

(** C8.  In any run the header is written at most once; if a row is
    written, the header comes immediately before the first row and nothing
    is written before it; a run that writes no row writes no header.  The
    file is empty, or the header followed by one line per written marker. *)
Theorem lazy_header (w : world) :
  let tr := trace (main w).2 in
  headers_written tr <= 1
  /\ ((exists marker, RowWritten marker ∈ tr) ->
      exists pre marker post,
        tr = pre ++ HeaderWritten :: RowWritten marker :: post
        /\ Forall (fun e => is_header e = false /\ is_row e = false) pre
        /\ Forall (fun e => is_header e = false) post)
  /\ ((forall marker, RowWritten marker ∉ tr) -> HeaderWritten ∉ tr)
  /\ csv_rows tr = match written_markers tr with
                   | [] => []
                   | markers => header_cells :: (row_cells <$> markers)
                   end.
Proof.
  intros tr. pose proof (main_header_lazy w) as H.
  destruct (header_lazy_shape _ H) as (Hcount & Hnone & Hrows).
  split_and!; try done.
  intros [marker Hm]. unfold header_lazy in H. fold tr in H.
  destruct (wrote_header (main w).2); [done|].
  destruct (no_write_filter _ H) as (_ & P2 & _).
  apply written_markers_elem in Hm. rewrite P2 in Hm.
  by apply elem_of_nil in Hm.
Qed.

(** ** Failures of a map query *)

(** What the code does keep of the tolerance of failures.  A map query that
    fails (no connection, a status that is not a success, a body that is not
    JSON) is logged and the scan goes on with the next box: nothing is marked
    seen, nothing written, and the box is not asked again.  If the output
    file cannot be opened the run ends with that error before any request. *)
Theorem box_failure_tolerance (w : world) :
  (forall b rest s,
     let r := http_get w (requests_made (trace s)) (MapQuery b) in
     let s' := logged s [Requested (MapQuery b);
                         Printed (BoxLookupFailed b (failure_of r))] in
     map_data r = None ->
     scan_box w b s = (Ok (), s') /\ scan w (b :: rest) s = scan w rest s')
  /\ (forall r,
        map_data r = None <->
        r = ConnectionFailed
        \/ (exists body, r = Responded (Response false body))
        \/ r = Responded (Response true None))
  /\ (sink_opens w = false -> main w = (Raise OSError, initial_state)).
Proof.
  split_and!.
  - intros b rest s r s' Hfail.
    assert (Hbox : scan_box w b s = (Ok (), s')).
    { rewrite scan_box_run. fold r. by rewrite Hfail. }
    split; [done|].
    unfold scan; simpl. unfold mbind, M_bind. by rewrite Hbox.
  - intros [|[[] [data|]]]; simpl; split; try done;
      try (intros [?|[[? ?]|?]]; done); eauto.
  - intros Hsink. unfold main. by rewrite Hsink.
Qed.

Lemma box_failure_tolerance_witness :
  let w := World true (fun _ _ => ConnectionFailed) (fun _ => Ok []) in
  let b := box_at 47 (-13) in
  scan_box w b initial_state
  = (Ok (), logged initial_state
              [Requested (MapQuery b); Printed (BoxLookupFailed b ConnectionError)]).
Proof.
  intros w b.
  exact (proj1 (proj1 (box_failure_tolerance w) b [] initial_state eq_refl)).
Defined.

(** A run is aborted with the output file open only after a map query that
    succeeded: the exception comes from the use made of its JSON, never from
    a query that failed. *)
Lemma abort_follows_successful_query (w : world) (e : exn) :
  (main w).1 = Raise e ->
  (sink_opens w = false /\ e = OSError)
  \/ exists b s data,
       b ∈ generate_bounding_boxes
       /\ map_data (http_get w (requests_made (trace s)) (MapQuery b)) = Some data
       /\ scan_box w b s = (Raise e, (main w).2).
Proof.
  unfold main. destruct (sink_opens w); [|intros [= <-]; by left].
  intros Hraise. right. unfold scan in *.
  generalize dependent initial_state.
  induction generate_bounding_boxes as [|b boxes IH]; intros s Hraise; [done|].
  simpl in *. unfold mbind, M_bind in *.
  destruct (scan_box w b s) as [[[]|e'] s1] eqn:Hbox.
  - destruct (IH s1 Hraise) as (b' & s' & data & Hb' & Hdata & Hrun).
    exists b', s', data. split; [by apply list_elem_of_further|done].
  - simpl in Hraise. injection Hraise as ->. simpl.
    rewrite scan_box_run in Hbox.
    destruct (map_data _) as [data|] eqn:Hdata; [|done].
    exists b, s, data. split; [apply list_elem_of_here|].
    split; [done|]. by rewrite scan_box_run, Hdata.
Qed.

(** C7 does not hold of the code.  Here the output file opens and the first
    map response has a success status and a JSON body, an array; [data.get],
    which is outside the [try] block of [main], raises [AttributeError] and
    the run is aborted after that one request, with nothing logged and no
    other box asked for. *)
Theorem run_aborts_although_sink_opens :
  sink_opens array_world = true
  /\ (main array_world).1 = Raise AttributeError
  /\ trace (main array_world).2 = [Requested (MapQuery (box_at 47 (-13)))].
Proof. by vm_compute. Qed.

(** ** The derived fields *)

Lemma process_marker_written w fields s enriched s1 website_url maps_url :
  let store_id := default VNone (fields !! "id") in
  set_contains (seen_ids s) store_id = Ok false ->
  list_contains ALLOWED_COUNTRIES (default VNone (fields !! "country")) = true ->
  fetch_store_data w store_id fields (with_seen store_id s) = (Ok enriched, s1) ->
  extract_urls_from_html w (default (VStr "") (enriched !! "store_html"))
    = Ok (website_url, maps_url) ->
  process_marker w (VDict fields) s
  = (Ok (),
     State (seen_ids s1) true
       (trace s1 ++ (if wrote_header s1 then [] else [HeaderWritten])
                 ++ [RowWritten
                       (<["has_enabled_affiliate" :=
                            default (VStr "") (enriched !! "has_enabled_affiliate")]>
                          (<["maps_url" := VStr maps_url]>
                             (<["website_url" := VStr website_url]> enriched)))])).
Proof.
  intros store_id Hseen Hcountry Hfetch Hurls.
  unfold process_marker, mbind, M_bind, lift, seen_contains, seen_add; simpl.
  fold store_id. rewrite Hseen, Hcountry. simpl.
  fold (with_seen store_id s). rewrite Hfetch, Hurls.
  unfold get_wrote_header, write_csv_header, write_csv_row,
    set_wrote_header, emit, mret, M_ret; simpl.
  destruct (wrote_header s1) eqn:Hheader; simpl;
    by rewrite <- ?app_assoc, ?Hheader.
Qed.

Lemma extract_urls_from_html_Ok w html doc website_url maps_url :
  html_parser w html = Ok doc ->
  extract_urls_from_html w html = Ok (website_url, maps_url) ->
  (select_one subtitle_anchor doc = None -> website_url = "")
  /\ (select_one directions_anchor doc = None -> maps_url = "").
Proof.
  intros Hdoc. unfold extract_urls_from_html. rewrite Hdoc. simpl.
  destruct (select_one subtitle_anchor doc) as [t1|];
    destruct (select_one directions_anchor doc) as [t2|]; simpl;
    repeat match goal with
           | |- context [tag_getitem ?t ?k] => destruct (tag_getitem t k); simpl
           end;
    intros [= <- <-] || intros [=]; done.
Qed.

(** C10.  For an admitted marker whose markup extraction returns, the
    record written has [website_url] and [maps_url] set to the extracted
    values (the empty string where the selector matches nothing) and
    [has_enabled_affiliate] set to its value after enrichment, or to the empty
    string; whatever these three keys held before is replaced, and every
    other key keeps the value it had after enrichment. *)
Theorem derived_fields_overwrite w fields s enriched s1 website_url maps_url :
  let store_id := default VNone (fields !! "id") in
  let store_html := default (VStr "") (enriched !! "store_html") in
  set_contains (seen_ids s) store_id = Ok false ->
  list_contains ALLOWED_COUNTRIES (default VNone (fields !! "country")) = true ->
  fetch_store_data w store_id fields (with_seen store_id s) = (Ok enriched, s1) ->
  extract_urls_from_html w store_html = Ok (website_url, maps_url) ->
  exists record,
    process_marker w (VDict fields) s
    = (Ok (),
       State (seen_ids s1) true
         (trace s1 ++ (if wrote_header s1 then [] else [HeaderWritten])
                   ++ [RowWritten record]))
    /\ record !! "website_url" = Some (VStr website_url)
    /\ record !! "maps_url" = Some (VStr maps_url)
    /\ record !! "has_enabled_affiliate"
       = Some (default (VStr "") (enriched !! "has_enabled_affiliate"))
    /\ (forall k,
          k <> "website_url" -> k <> "maps_url" -> k <> "has_enabled_affiliate" ->
          record !! k = enriched !! k)
    /\ (forall doc,
          html_parser w store_html = Ok doc ->
          (select_one subtitle_anchor doc = None -> website_url = "")
          /\ (select_one directions_anchor doc = None -> maps_url = "")).
Proof.
  intros store_id store_html Hseen Hcountry Hfetch Hurls.
  eexists. split; [by apply process_marker_written|].
  split_and!.
  - by rewrite lookup_insert_ne, lookup_insert_ne, lookup_insert_eq.
  - by rewrite lookup_insert_ne, lookup_insert_eq.
  - by rewrite lookup_insert_eq.
  - intros k H1 H2 H3. by rewrite !lookup_insert_ne.
  - intros doc Hdoc. by eapply extract_urls_from_html_Ok.
Qed.

Lemma derived_fields_overwrite_witness :
  let fields := <["website_url" := VStr "search-site"]> (marker_of "7" "PT") in
  let enriched :=
    <["maps_url" := VStr "detail-maps"]>
      (<["store_html" := VStr "<div>...</div>"]> fields) in
  let s1 := State [VStr "7"] false [Requested (StoreQuery (VStr "7"))] in
  exists record,
    process_marker profile_world (VDict fields) initial_state
    = (Ok (),
       State (seen_ids s1) true
         (trace s1 ++ (if wrote_header s1 then [] else [HeaderWritten])
                   ++ [RowWritten record]))
    /\ record !! "website_url" = Some (VStr "https://shop.example")
    /\ record !! "maps_url" = Some (VStr "https://maps.example")
    /\ record !! "has_enabled_affiliate"
       = Some (default (VStr "") (enriched !! "has_enabled_affiliate"))
    /\ (forall k,
          k <> "website_url" -> k <> "maps_url" -> k <> "has_enabled_affiliate" ->
          record !! k = enriched !! k)
    /\ (forall doc,
          html_parser profile_world (default (VStr "") (enriched !! "store_html"))
            = Ok doc ->
          (select_one subtitle_anchor doc = None -> "https://shop.example" = "")
          /\ (select_one directions_anchor doc = None -> "https://maps.example" = "")).
Proof.
  intros fields enriched s1.
  apply (derived_fields_overwrite profile_world fields initial_state enriched s1
           "https://shop.example" "https://maps.example"); by vm_compute.
Defined.

(** ** Extraction *)

Lemma tag_getitem_raises tag key e : tag_getitem tag key = Raise e -> e = KeyError.
Proof. unfold tag_getitem. destruct (_ !! _); by intros [=]. Qed.

(** C5 does not hold of the code.  When the first anchor matched by either
    selector has no [href] attribute, [tag["href"]] raises [KeyError] and so
    does [extract_urls_from_html], instead of yielding the empty string. *)
Theorem extraction_raises_without_href w html doc tag :
  html_parser w html = Ok doc ->
  select_one subtitle_anchor doc = Some tag
  \/ select_one directions_anchor doc = Some tag ->
  tag_attrs tag !! "href" = None ->
  extract_urls_from_html w html = Raise KeyError.
Proof.
  intros Hdoc Htag Hhref. unfold extract_urls_from_html. rewrite Hdoc. simpl.
  assert (Hget : tag_getitem tag "href" = Raise KeyError)
    by (unfold tag_getitem; by rewrite Hhref).
  destruct Htag as [-> | ->].
  - by rewrite Hget.
  - rewrite Hget.
    destruct (select_one subtitle_anchor doc) as [t1|]; simpl; [|done].
    destruct (tag_getitem t1 "href") as [?|e] eqn:H1; simpl; [done|].
    by rewrite (tag_getitem_raises _ _ _ H1).
Qed.

Lemma extraction_raises_without_href_witness :
  extract_urls_from_html href_less_world
    (VStr "<a class='js-get-directions'>Directions</a>")
  = Raise KeyError.
Proof.
  apply (extraction_raises_without_href href_less_world _ directions_without_href
           (Element "a" ["js-get-directions"] ∅ [])).
  - reflexivity.
  - right. reflexivity.
  - reflexivity.
Defined.

Lemma extraction_without_match w html doc :
  html_parser w html = Ok doc ->
  select_one subtitle_anchor doc = None ->
  select_one directions_anchor doc = None ->
  extract_urls_from_html w html = Ok ("", "").
Proof.
  intros Hdoc H1 H2. unfold extract_urls_from_html. rewrite Hdoc. simpl.
  by rewrite H1, H2.
Qed.

Lemma extraction_with_href w html doc t1 t2 h1 h2 :
  html_parser w html = Ok doc ->
  select_one subtitle_anchor doc = Some t1 -> tag_attrs t1 !! "href" = Some h1 ->
  select_one directions_anchor doc = Some t2 -> tag_attrs t2 !! "href" = Some h2 ->
  extract_urls_from_html w html = Ok (h1, h2).
Proof.
  intros Hdoc H1 A1 H2 A2. unfold extract_urls_from_html, tag_getitem.
  rewrite Hdoc. simpl. by rewrite H1, H2, A1, A2.
Qed.

Example main_aborts_on_anchor_without_href :
  sink_opens href_less_run = true
  /\ (main href_less_run).1 = Raise KeyError
  /\ csv_rows (trace (main href_less_run).2) = [].
Proof. by vm_compute. Qed.

(** ** The end-to-end scenario *)

Lemma for_each_cons_Ok {A} (body : A -> M unit) x l s s1 :
  body x s = (Ok (), s1) -> for_each body (x :: l) s = for_each body l s1.
Proof. intros H. simpl. unfold mbind, M_bind. by rewrite H. Qed.

Lemma for_each_app_Ok {A} (body : A -> M unit) l l' s s1 :
  for_each body l s = (Ok (), s1) ->
  for_each body (l ++ l') s = for_each body l' s1.
Proof.
  revert s. induction l as [|x l IH]; intros s H; simpl in *.
  - unfold mret, M_ret in H. by injection H as ->.
  - unfold mbind, M_bind in *.
    destruct (body x s) as [[[]|e] s2]; [by apply IH|done].
Qed.

Lemma scan_box_search w b s items :
  search_result (http_get w (requests_made (trace s)) (MapQuery b)) = Some items ->
  scan_box w b s
  = (for_each (process_marker w) items ≫= fun _ => emit Slept)
      (logged s [Requested (MapQuery b)]).
Proof.
  intros H. rewrite scan_box_run. unfold search_result in H.
  destruct (map_data _) as [[| | | | | |data]|]; try done.
  unfold after_map_query, mbind, M_bind, lift; simpl.
  destruct (default (VList []) (data !! "markers")); try done.
  by injection H as ->.
Qed.

Lemma scan_box_quiet w b s :
  is_quiet (http_get w (requests_made (trace s)) (MapQuery b)) = true ->
  exists events,
    scan_box w b s = (Ok (), logged s events)
    /\ Forall (fun e => is_neutral e = true) events.
Proof.
  intros H. unfold is_quiet in H.
  destruct (map_data _) as [data|] eqn:Hdata.
  - destruct (search_result _) as [[|]|] eqn:Hsearch; try done.
    rewrite (scan_box_search _ _ _ _ Hsearch).
    exists [Requested (MapQuery b); Slept]. split; [|by repeat constructor].
    unfold mbind, M_bind, emit, logged; simpl. by rewrite <- app_assoc.
  - rewrite scan_box_run, Hdata. eexists. split; [done|by repeat constructor].
Qed.

Lemma written_markers_neutral events :
  Forall (fun e => is_neutral e = true) events -> written_markers events = [].
Proof. induction 1 as [|[[]| | | |] ? ? ? IH]; done. Qed.

Lemma scan_quiet w boxes s :
  (forall b n, b ∈ boxes -> is_quiet (http_get w n (MapQuery b)) = true) ->
  exists events,
    scan w boxes s = (Ok (), logged s events)
    /\ Forall (fun e => is_neutral e = true) events.
Proof.
  revert s. induction boxes as [|b boxes IH]; intros s Hq.
  - exists []. split; [|done]. unfold logged. rewrite app_nil_r. by destruct s.
  - destruct (scan_box_quiet w b s) as (ev1 & Hb & H1).
    { apply Hq. apply list_elem_of_here. }
    destruct (IH (logged s ev1)) as (ev2 & Hrest & H2).
    { intros b' n Hb'. apply Hq. by apply list_elem_of_further. }
    exists (ev1 ++ ev2). split; [|by apply Forall_app].
    unfold scan in *. rewrite (for_each_cons_Ok _ _ _ _ _ Hb), Hrest.
    by rewrite logged_logged.
Qed.

Lemma process_marker_duplicate w fields s :
  set_contains (seen_ids s) (default VNone (fields !! "id")) = Ok true ->
  process_marker w (VDict fields) s = (Ok (), s).
Proof.
  intros Hseen.
  unfold process_marker, mbind, M_bind, lift, seen_contains; simpl.
  by rewrite Hseen.
Qed.

Lemma process_marker_filtered w fields s :
  let store_id := default VNone (fields !! "id") in
  set_contains (seen_ids s) store_id = Ok false ->
  list_contains ALLOWED_COUNTRIES (default VNone (fields !! "country")) = false ->
  process_marker w (VDict fields) s = (Ok (), with_seen store_id s).
Proof.
  intros store_id Hseen Hcountry.
  unfold process_marker, mbind, M_bind, lift, seen_contains, seen_add; simpl.
  fold store_id. rewrite Hseen. by rewrite Hcountry.
Qed.

Lemma process_marker_admits w fields s store_id :
  markup_readable w store_id fields ->
  fields !! "id" = Some store_id ->
  set_contains (seen_ids s) store_id = Ok false ->
  list_contains ALLOWED_COUNTRIES (default VNone (fields !! "country")) = true ->
  exists record s',
    process_marker w (VDict fields) s = (Ok (), s')
    /\ seen_ids s' = store_id :: seen_ids s
    /\ written_markers (trace s') = written_markers (trace s) ++ [record]
    /\ record !! "id" = Some store_id.
Proof.
  intros Htotal Hid Hseen Hcountry.
  assert (Hdef : default VNone (fields !! "id") = store_id) by by rewrite Hid.
  destruct (fetch_store_data_total w store_id fields (with_seen store_id s))
    as (enriched & events & Hfetch & Hevents & Hsub).
  destruct (Htotal _ _ _ Hfetch) as [[website_url maps_url] Hurls].
  pose proof (process_marker_written w fields s enriched
                (logged (with_seen store_id s)
                   (Requested (StoreQuery store_id) :: events))
                website_url maps_url) as Hrun.
  simpl in Hrun. rewrite Hdef in Hrun.
  specialize (Hrun Hseen Hcountry Hfetch Hurls).
  eexists _, _. split; [exact Hrun|].
  simpl. split_and!.
  - done.
  - rewrite !written_markers_app. simpl.
    assert (written_markers events = []) as ->
      by (by destruct Hevents as [-> | ->]).
    assert (written_markers
              (if wrote_header s then [] else [HeaderWritten]) = []) as ->
      by (by destruct (wrote_header s)).
    by rewrite app_nil_r.
  - rewrite !lookup_insert_ne by done.
    by eapply lookup_weaken.
Qed.

Lemma scan_box_first w b s m1 m2 :
  markup_readable w (VStr "1") m1 ->
  search_result (http_get w (requests_made (trace s)) (MapQuery b))
    = Some [VDict m1; VDict m2] ->
  m1 !! "id" = Some (VStr "1") -> m1 !! "country" = Some (VStr "ES") ->
  m2 !! "id" = Some (VStr "2") -> m2 !! "country" = Some (VStr "FR") ->
  seen_ids s = [] ->
  exists r1 s',
    scan_box w b s = (Ok (), s')
    /\ seen_ids s' = [VStr "2"; VStr "1"]
    /\ written_markers (trace s') = written_markers (trace s) ++ [r1]
    /\ r1 !! "id" = Some (VStr "1").
Proof.
  intros Htotal Hsearch Hid1 Hc1 Hid2 Hc2 Hseen.
  rewrite (scan_box_search _ _ _ _ Hsearch).
  set (s0 := logged s [Requested (MapQuery b)]).
  assert (Hs0 : seen_ids s0 = []) by done.
  destruct (process_marker_admits w m1 s0 (VStr "1") Htotal Hid1)
    as (r1 & s1 & Hrun1 & Hseen1 & Hrows1 & Hr1).
  { by rewrite Hs0. }
  { by rewrite Hc1. }
  pose proof (process_marker_filtered w m2 s1) as Hrun2.
  simpl in Hrun2. rewrite Hid2, Hc2, Hseen1, Hs0 in Hrun2. simpl in Hrun2.
  specialize (Hrun2 eq_refl eq_refl).
  exists r1, (logged (with_seen (VStr "2") s1) [Slept]). split_and!.
  - unfold mbind, M_bind.
    rewrite (for_each_cons_Ok _ _ _ _ _ Hrun1), (for_each_cons_Ok _ _ _ _ _ Hrun2).
    done.
  - simpl. by rewrite Hseen1, Hs0.
  - simpl. rewrite written_markers_app, Hrows1; simpl.
    rewrite written_markers_app. simpl. by rewrite !app_nil_r.
  - done.
Qed.

Lemma scan_box_second w b s m1 m3 :
  markup_readable w (VStr "3") m3 ->
  search_result (http_get w (requests_made (trace s)) (MapQuery b))
    = Some [VDict m1; VDict m3] ->
  m1 !! "id" = Some (VStr "1") ->
  m3 !! "id" = Some (VStr "3") -> m3 !! "country" = Some (VStr "PT") ->
  seen_ids s = [VStr "2"; VStr "1"] ->
  exists r3 s',
    scan_box w b s = (Ok (), s')
    /\ written_markers (trace s') = written_markers (trace s) ++ [r3]
    /\ r3 !! "id" = Some (VStr "3").
Proof.
  intros Htotal Hsearch Hid1 Hid3 Hc3 Hseen.
  rewrite (scan_box_search _ _ _ _ Hsearch).
  set (s0 := logged s [Requested (MapQuery b)]).
  assert (Hs0 : seen_ids s0 = [VStr "2"; VStr "1"]) by done.
  pose proof (process_marker_duplicate w m1 s0) as Hrun1.
  rewrite Hid1, Hs0 in Hrun1. specialize (Hrun1 eq_refl).
  destruct (process_marker_admits w m3 s0 (VStr "3") Htotal Hid3)
    as (r3 & s1 & Hrun3 & Hseen3 & Hrows3 & Hr3).
  { by rewrite Hs0. }
  { by rewrite Hc3. }
  exists r3, (logged s1 [Slept]). split_and!.
  - unfold mbind, M_bind.
    rewrite (for_each_cons_Ok _ _ _ _ _ Hrun1), (for_each_cons_Ok _ _ _ _ _ Hrun3).
    done.
  - simpl. rewrite written_markers_app, Hrows3; simpl.
    rewrite written_markers_app. simpl. by rewrite !app_nil_r.
  - done.
Qed.

Lemma scan_scenario w pre mid post b1 b2 m1 m2 m1' m3 :
  markup_readable w (VStr "1") m1 ->
  markup_readable w (VStr "3") m3 ->
  (forall n, search_result (http_get w n (MapQuery b1)) = Some [VDict m1; VDict m2]) ->
  (forall n, search_result (http_get w n (MapQuery b2)) = Some [VDict m1'; VDict m3]) ->
  (forall b n, b ∈ pre ++ mid ++ post ->
               is_quiet (http_get w n (MapQuery b)) = true) ->
  m1 !! "id" = Some (VStr "1") -> m1 !! "country" = Some (VStr "ES") ->
  m2 !! "id" = Some (VStr "2") -> m2 !! "country" = Some (VStr "FR") ->
  m1' !! "id" = Some (VStr "1") ->
  m3 !! "id" = Some (VStr "3") -> m3 !! "country" = Some (VStr "PT") ->
  exists r1 r3 s',
    scan w (pre ++ b1 :: mid ++ b2 :: post) initial_state = (Ok (), s')
    /\ written_markers (trace s') = [r1; r3]
    /\ r1 !! "id" = Some (VStr "1") /\ r3 !! "id" = Some (VStr "3").
Proof.
  intros Hread1 Hread3 Hb1 Hb2 Hquiet Hid1 Hc1 Hid2 Hc2 Hid1' Hid3 Hc3.
  destruct (scan_quiet w pre initial_state) as (ev0 & Hpre & Hev0).
  { intros b n Hb. apply Hquiet. set_solver. }
  destruct (scan_box_first w b1 (logged initial_state ev0) m1 m2)
    as (r1 & s1 & Hfirst & Hseen1 & Hrows1 & Hr1); try done.
  destruct (scan_quiet w mid s1) as (ev1 & Hmid & Hev1).
  { intros b n Hb. apply Hquiet. set_solver. }
  destruct (scan_box_second w b2 (logged s1 ev1) m1' m3)
    as (r3 & s2 & Hsecond & Hrows2 & Hr3); try done.
  destruct (scan_quiet w post s2) as (ev2 & Hpost & Hev2).
  { intros b n Hb. apply Hquiet. set_solver. }
  exists r1, r3, (logged s2 ev2). split_and!; try done.
  - unfold scan in *.
    rewrite (for_each_app_Ok _ _ _ _ _ Hpre).
    rewrite (for_each_cons_Ok _ _ _ _ _ Hfirst).
    rewrite (for_each_app_Ok _ _ _ _ _ Hmid).
    by rewrite (for_each_cons_Ok _ _ _ _ _ Hsecond).
  - simpl in *.
    rewrite written_markers_app, Hrows2, written_markers_app, Hrows1.
    by rewrite !written_markers_neutral, !app_nil_r.
Qed.

(** C6.  One box of the grid returns markers "1" (ES) and "2" (FR), a later
    box returns marker "1" again and marker "3" (PT), and no other box
    returns a marker.  If the markup of the two admitted markers, "1" and
    "3", can be read once they are enriched, the run ends normally and writes
    the header and exactly two rows, for "1" and then "3". *)
Theorem end_to_end_scenario (w : world) (i j : nat) (b1 b2 : box)
    (m1 m2 m1' m3 : dict) :
  sink_opens w = true ->
  markup_readable w (VStr "1") m1 ->
  markup_readable w (VStr "3") m3 ->
  generate_bounding_boxes !! i = Some b1 ->
  generate_bounding_boxes !! j = Some b2 ->
  i < j ->
  (forall n, search_result (http_get w n (MapQuery b1)) = Some [VDict m1; VDict m2]) ->
  (forall n, search_result (http_get w n (MapQuery b2)) = Some [VDict m1'; VDict m3]) ->
  (forall n k b, generate_bounding_boxes !! k = Some b -> k <> i -> k <> j ->
                 is_quiet (http_get w n (MapQuery b)) = true) ->
  m1 !! "id" = Some (VStr "1") -> m1 !! "country" = Some (VStr "ES") ->
  m2 !! "id" = Some (VStr "2") -> m2 !! "country" = Some (VStr "FR") ->
  m1' !! "id" = Some (VStr "1") ->
  m3 !! "id" = Some (VStr "3") -> m3 !! "country" = Some (VStr "PT") ->
  exists r1 r3,
    (main w).1 = Ok ()
    /\ written_markers (trace (main w).2) = [r1; r3]
    /\ r1 !! "id" = Some (VStr "1")
    /\ r3 !! "id" = Some (VStr "3")
    /\ csv_rows (trace (main w).2) = [header_cells; row_cells r1; row_cells r3].
Proof.
  intros Hsink Hread1 Hread3 Hi Hj Hij Hb1 Hb2 Hquiet
    Hid1 Hc1 Hid2 Hc2 Hid1' Hid3 Hc3.
  set (grid := generate_bounding_boxes) in *.
  set (rest := drop (S i) grid).
  assert (Hj' : rest !! (j - S i) = Some b2).
  { unfold rest. rewrite lookup_drop. by replace (S i + (j - S i)) with j by lia. }
  assert (Hgrid : grid = take i grid
                           ++ b1 :: take (j - S i) rest
                           ++ b2 :: drop (S (j - S i)) rest).
  { rewrite (take_drop_middle rest _ _ Hj'). unfold rest.
    by rewrite (take_drop_middle grid _ _ Hi). }
  destruct (scan_scenario w (take i grid) (take (j - S i) rest)
              (drop (S (j - S i)) rest) b1 b2 m1 m2 m1' m3)
    as (r1 & r3 & s' & Hrun & Hrows & Hr1 & Hr3); try done.
  { intros b n [Hb|[Hb|Hb]%elem_of_app]%elem_of_app;
      apply list_elem_of_lookup in Hb as [k Hk].
    - apply lookup_take_Some in Hk as [Hk Hlt]. apply (Hquiet n k); [done|lia..].
    - apply lookup_take_Some in Hk as [Hk Hlt]. unfold rest in Hk.
      rewrite lookup_drop in Hk. apply (Hquiet n _ _ Hk); lia.
    - unfold rest in Hk. rewrite !lookup_drop in Hk.
      apply (Hquiet n _ _ Hk); lia. }
  assert (Hmain : main w = (Ok (), s')).
  { unfold main. rewrite Hsink. fold grid. by rewrite Hgrid. }
  exists r1, r3. rewrite Hmain. simpl. split_and!; try done.
  pose proof (main_header_lazy w) as Hlazy. rewrite Hmain in Hlazy.
  destruct (header_lazy_shape _ Hlazy) as (_ & _ & Hcsv). simpl in Hcsv.
  by rewrite Hcsv, Hrows.
Qed.

Lemma forallb_lookup {A} (f : A -> bool) (l : list A) k x :
  forallb f l = true -> l !! k = Some x -> f x = true.
Proof.
  intros H Hk. rewrite forallb_forall in H. apply H.
  apply list_elem_of_In. by eapply list_elem_of_lookup_2.
Qed.

Lemma strict_world_readable store_id country :
  markup_readable strict_scenario_world (VStr store_id)
    (marker_of store_id country).
Proof.
  intros s enriched s1 Hfetch. rewrite fetch_store_data_run in Hfetch.
  simpl in Hfetch. injection Hfetch as <- _. by exists ("", "").
Qed.

Lemma end_to_end_scenario_witness :
  exists r1 r3,
    (main strict_scenario_world).1 = Ok ()
    /\ written_markers (trace (main strict_scenario_world).2) = [r1; r3]
    /\ r1 !! "id" = Some (VStr "1")
    /\ r3 !! "id" = Some (VStr "3")
    /\ csv_rows (trace (main strict_scenario_world).2)
       = [header_cells; row_cells r1; row_cells r3].
Proof.
  apply (end_to_end_scenario strict_scenario_world 0 2
           (Box 47 (-13) (47 + BOX_SIZE) (-13 + BOX_SIZE) (47 - BOX_SIZE) (-13 - BOX_SIZE))
           (Box 47 (-13 + BOX_SIZE + BOX_SIZE) (47 + BOX_SIZE)
              (-13 + BOX_SIZE + BOX_SIZE + BOX_SIZE) (47 - BOX_SIZE)
              (-13 + BOX_SIZE + BOX_SIZE - BOX_SIZE))
           (marker_of "1" "ES") (marker_of "2" "FR")
           (marker_of "1" "ES") (marker_of "3" "PT")).
  - reflexivity.
  - apply strict_world_readable.
  - apply strict_world_readable.
  - by vm_compute.
  - by vm_compute.
  - lia.
  - intros n. by vm_compute.
  - intros n. by vm_compute.
  - intros n k b Hk H0 H2.
    destruct k as [|[|[|k]]]; [done| |done|].
    + injection Hk as <-. by vm_compute.
    + assert (Hall : forallb (fun b => is_quiet (http_get strict_scenario_world n (MapQuery b)))
                       (drop 3 generate_bounding_boxes) = true) by by vm_compute.
      apply (forallb_lookup _ _ k _ Hall). by rewrite lookup_drop.
  - reflexivity.
  - reflexivity.
  - reflexivity.
  - reflexivity.
  - reflexivity.
  - reflexivity.
  - reflexivity.
Defined.

(** In that world the parser is not forgiving: markup that is not a string
    makes it raise, and markup with the anchor makes the extraction raise. *)
Example strict_world_extraction_can_fail :
  extract_urls_from_html strict_scenario_world VNone = Raise TypeError
  /\ extract_urls_from_html strict_scenario_world
       (VStr "<a class='js-get-directions'>Directions</a>")
     = Raise KeyError.
Proof. by vm_compute. Qed.

(** * Further properties *)

(** ** The grid: bounds, coverage, order *)

Lemma lng_loop_elem center_lat center_lng end_lng b :
  b ∈ lng_loop center_lat center_lng end_lng ->
  b = box_at center_lat (box_center_lng b)
  /\ (center_lng <= box_center_lng b)%Q /\ (box_center_lng b <= end_lng)%Q.
Proof.
  funelim (lng_loop center_lat center_lng end_lng); intros Hb.
  - by apply elem_of_nil in Hb.
  - apply elem_of_cons in Hb as [-> | Hb].
    + simpl. split_and!; [done|lra|done].
    + destruct (H _ Hb) as (? & ? & ?). split_and!; [done| |done].
      unfold BOX_SIZE in *. lra.
Qed.

Lemma lat_loop_elem center_lat end_lat start_lng end_lng b :
  b ∈ lat_loop center_lat end_lat start_lng end_lng ->
  b = box_at (box_center_lat b) (box_center_lng b)
  /\ (end_lat <= box_center_lat b)%Q /\ (box_center_lat b <= center_lat)%Q
  /\ (start_lng <= box_center_lng b)%Q /\ (box_center_lng b <= end_lng)%Q.
Proof.
  funelim (lat_loop center_lat end_lat start_lng end_lng); intros Hb.
  - by apply elem_of_nil in Hb.
  - apply elem_of_app in Hb as [Hb | Hb].
    + destruct (lng_loop_elem _ _ _ _ Hb) as (E & ? & ?).
      assert (box_center_lat b = center_lat) as Hlat by (by rewrite E).
      rewrite Hlat. split_and!; [exact E|done|lra|done|done].
    + destruct (H _ Hb) as (? & ? & ? & ? & ?). split_and!; try done.
      unfold BOX_SIZE in *. lra.
Qed.

(** X1.  The generator stays inside the ranges: the centre of every box of a
    pair lies between the two latitudes and between the two longitudes, and
    the corners are the centre shifted by [BOX_SIZE] each way. *)
Theorem boxes_within_ranges (start_lat end_lat start_lng end_lng : Q) (b : box) :
  b ∈ boxes_of_ranges ((start_lat, end_lat), (start_lng, end_lng)) ->
  (end_lat <= box_center_lat b)%Q /\ (box_center_lat b <= start_lat)%Q
  /\ (start_lng <= box_center_lng b)%Q /\ (box_center_lng b <= end_lng)%Q
  /\ box_ne_lat b = (box_center_lat b + BOX_SIZE)%Q
  /\ box_ne_lng b = (box_center_lng b + BOX_SIZE)%Q
  /\ box_sw_lat b = (box_center_lat b - BOX_SIZE)%Q
  /\ box_sw_lng b = (box_center_lng b - BOX_SIZE)%Q.
Proof.
  intros Hb. simpl in Hb.
  destruct (lat_loop_elem _ _ _ _ _ Hb) as (E & ? & ? & ? & ?).
  split_and!; try done; by rewrite E at 1.
Qed.

Lemma boxes_within_ranges_witness :
  let b := box_at (57 # 2) (-37 # 2) in
  (27 <= box_center_lat b)%Q /\ (box_center_lat b <= 30)%Q
  /\ (-20 <= box_center_lng b)%Q /\ (box_center_lng b <= -12)%Q
  /\ box_ne_lat b = (box_center_lat b + BOX_SIZE)%Q
  /\ box_ne_lng b = (box_center_lng b + BOX_SIZE)%Q
  /\ box_sw_lat b = (box_center_lat b - BOX_SIZE)%Q
  /\ box_sw_lng b = (box_center_lng b - BOX_SIZE)%Q.
Proof.
  intros b. apply (boxes_within_ranges 30 27 (-20) (-12) b).
  apply list_elem_of_lookup. by exists 7.
Defined.

Lemma lng_loop_covers center_lat center_lng end_lng lng :
  (center_lng <= lng)%Q -> (lng <= end_lng)%Q ->
  exists b, b ∈ lng_loop center_lat center_lng end_lng
    /\ b = box_at center_lat (box_center_lng b)
    /\ (box_center_lng b <= lng)%Q /\ (lng < box_center_lng b + BOX_SIZE)%Q.
Proof.
  funelim (lng_loop center_lat center_lng end_lng); intros Hlo Hhi.
  - lra.
  - destruct (Qlt_le_dec lng (center_lng + BOX_SIZE)) as [Hnear|Hfar].
    + exists (box_at center_lat center_lng). split; [apply list_elem_of_here|].
      simpl. by split_and!.
    + destruct (H lng Hfar Hhi) as (b & Hb & ?). exists b.
      split; [by apply list_elem_of_further|done].
Qed.

Lemma lat_loop_covers center_lat end_lat start_lng end_lng lat lng :
  (end_lat <= lat)%Q -> (lat <= center_lat)%Q ->
  (start_lng <= lng)%Q -> (lng <= end_lng)%Q ->
  exists b, b ∈ lat_loop center_lat end_lat start_lng end_lng
    /\ b = box_at (box_center_lat b) (box_center_lng b)
    /\ (box_center_lat b - BOX_SIZE < lat)%Q /\ (lat <= box_center_lat b)%Q
    /\ (box_center_lng b <= lng)%Q /\ (lng < box_center_lng b + BOX_SIZE)%Q.
Proof.
  funelim (lat_loop center_lat end_lat start_lng end_lng);
    intros Hlo Hhi Hwest Heast.
  - lra.
  - destruct (Qlt_le_dec (center_lat - BOX_SIZE) lat) as [Hnear|Hfar].
    + destruct (lng_loop_covers center_lat start_lng end_lng lng Hwest Heast)
        as (b & Hb & E & ? & ?).
      assert (box_center_lat b = center_lat) as Hlat by (by rewrite E).
      exists b. split; [apply elem_of_app; by left|].
      rewrite Hlat. by split_and!.
    + destruct (H lat lng Hlo Hfar Hwest Heast) as (b & Hb & ?). exists b.
      split; [apply elem_of_app; by right|done].
Qed.

(** X2.  The boxes of a pair leave no gap: every point between the two
    latitudes and between the two longitudes lies in a box of the pair, in
    fact less than one step south and east of its centre. *)
Theorem boxes_cover_ranges (start_lat end_lat start_lng end_lng lat lng : Q) :
  (end_lat <= lat)%Q -> (lat <= start_lat)%Q ->
  (start_lng <= lng)%Q -> (lng <= end_lng)%Q ->
  exists b,
    b ∈ boxes_of_ranges ((start_lat, end_lat), (start_lng, end_lng))
    /\ in_box b lat lng
    /\ (box_center_lat b - BOX_SIZE < lat)%Q /\ (lat <= box_center_lat b)%Q
    /\ (box_center_lng b <= lng)%Q /\ (lng < box_center_lng b + BOX_SIZE)%Q.
Proof.
  intros Hlo Hhi Hwest Heast.
  destruct (lat_loop_covers start_lat end_lat start_lng end_lng lat lng)
    as (b & Hb & E & H1 & H2 & H3 & H4); try done.
  exists b. split; [done|]. split; [|done].
  unfold in_box. rewrite E. simpl. unfold BOX_SIZE in *. lra.
Qed.

Lemma boxes_cover_ranges_witness :
  exists b,
    b ∈ boxes_of_ranges ((47, 30), (-13, 8))%Q
    /\ in_box b (201 # 5) (-37 # 10)
    /\ (box_center_lat b - BOX_SIZE < 201 # 5)%Q /\ (201 # 5 <= box_center_lat b)%Q
    /\ (box_center_lng b <= -37 # 10)%Q /\ (-37 # 10 < box_center_lng b + BOX_SIZE)%Q.
Proof. apply boxes_cover_ranges; by vm_compute. Defined.

Lemma lng_loop_order center_lat center_lng end_lng i j b b' :
  i < j ->
  lng_loop center_lat center_lng end_lng !! i = Some b ->
  lng_loop center_lat center_lng end_lng !! j = Some b' ->
  (box_center_lng b < box_center_lng b')%Q.
Proof.
  revert i j. funelim (lng_loop center_lat center_lng end_lng);
    intros i j Hij Hi Hj; [done|].
  destruct j as [|j]; [lia|]. simpl in Hj.
  destruct i as [|i]; simpl in Hi.
  - injection Hi as <-. simpl.
    apply list_elem_of_lookup_2, lng_loop_elem in Hj as (_ & Hj & _).
    unfold BOX_SIZE in *. lra.
  - apply (H _ _ i j); [lia|done..].
Qed.

Lemma lat_loop_order center_lat end_lat start_lng end_lng i j b b' :
  i < j ->
  lat_loop center_lat end_lat start_lng end_lng !! i = Some b ->
  lat_loop center_lat end_lat start_lng end_lng !! j = Some b' ->
  row_major b b'.
Proof.
  revert i j. funelim (lat_loop center_lat end_lat start_lng end_lng);
    intros i j Hij Hi Hj; [done|].
  apply lookup_app_Some in Hi as [Hi|[Hlen Hi]];
    apply lookup_app_Some in Hj as [Hj|[Hlen' Hj]].
  - right. split; [|by eapply lng_loop_order].
    apply list_elem_of_lookup_2, lng_loop_elem in Hi as (-> & _).
    apply list_elem_of_lookup_2, lng_loop_elem in Hj as (-> & _). done.
  - left.
    apply list_elem_of_lookup_2, lng_loop_elem in Hi as (-> & _).
    apply list_elem_of_lookup_2, lat_loop_elem in Hj as (_ & _ & Hj & _).
    simpl. unfold BOX_SIZE in *. lra.
  - apply lookup_lt_Some in Hj. lia.
  - eapply H; [|exact Hi|exact Hj]. lia.
Qed.

(** X3.  The boxes of a pair come out row by row, north to south, and west
    to east within a row; so no two positions of the sequence have the same
    centre, and no box of a pair is asked for twice. *)
Theorem boxes_in_row_major_order (start_lat end_lat start_lng end_lng : Q)
    (i j : nat) (b b' : box) :
  let boxes := boxes_of_ranges ((start_lat, end_lat), (start_lng, end_lng)) in
  i < j -> boxes !! i = Some b -> boxes !! j = Some b' ->
  row_major b b'
  /\ ~ ((box_center_lat b == box_center_lat b')%Q
        /\ (box_center_lng b == box_center_lng b')%Q).
Proof.
  intros boxes Hij Hi Hj.
  assert (Hord : row_major b b') by (by eapply lat_loop_order).
  split; [done|]. intros [E1 E2]. destruct Hord as [?|[_ ?]]; lra.
Qed.

Lemma boxes_in_row_major_order_witness :
  let b := box_at 30 (-37 # 2) in
  let b' := box_at (57 # 2) (-20) in
  row_major b b'
  /\ ~ ((box_center_lat b == box_center_lat b')%Q
        /\ (box_center_lng b == box_center_lng b')%Q).
Proof.
  intros b b'.
  apply (boxes_in_row_major_order 30 27 (-20) (-12) 1 6 b b');
    [lia|reflexivity|reflexivity].
Defined.

(** ** Enrichment and extraction *)

(** X4.  Enrichment never removes a key: the keys after a merge are those of
    the marker and those of the payload.  An empty payload changes nothing,
    and merging the same payload a second time changes nothing more. *)
Theorem merge_into_keys (marker data : dict) :
  dom (merge_into marker data) = dom marker ∪ dom data
  /\ merge_into marker ∅ = marker
  /\ merge_into (merge_into marker data) data = merge_into marker data.
Proof.
  rewrite !merge_into_union. split_and!.
  - apply dom_union_L.
  - apply (right_id_L ∅ (∪)).
  - by rewrite <- (assoc_L (∪)), (idemp_L (∪) data).
Qed.

(** X5.  Extraction fails in two ways only: the parser raises, and then its
    exception is the one that comes out; or the first anchor matched by one
    of the two selectors has no [href], and [KeyError] comes out. *)
Theorem extraction_failures (w : world) (html : value) (e : exn) :
  extract_urls_from_html w html = Raise e <->
  html_parser w html = Raise e
  \/ exists doc tag,
       html_parser w html = Ok doc
       /\ (select_one subtitle_anchor doc = Some tag
           \/ select_one directions_anchor doc = Some tag)
       /\ tag_attrs tag !! "href" = None
       /\ e = KeyError.
Proof.
  unfold extract_urls_from_html, tag_getitem.
  destruct (html_parser w html) as [doc|e'] eqn:Hdoc; simpl.
  - split.
    + intros H. right. exists doc.
      destruct (select_one subtitle_anchor doc) as [t1|] eqn:H1.
      * destruct (tag_attrs t1 !! "href") as [h1|] eqn:A1; simpl in H.
        -- destruct (select_one directions_anchor doc) as [t2|] eqn:H2;
             [|done].
           destruct (tag_attrs t2 !! "href") as [h2|] eqn:A2; simpl in H;
             [done|].
           injection H as <-. exists t2. eauto.
        -- injection H as <-. exists t1. eauto.
      * simpl in H.
        destruct (select_one directions_anchor doc) as [t2|] eqn:H2; [|done].
        destruct (tag_attrs t2 !! "href") as [h2|] eqn:A2; simpl in H; [done|].
        injection H as <-. exists t2. eauto.
    + intros [H|(doc' & tag & [= <-] & Htag & Hhref & ->)]; [done|].
      destruct Htag as [-> | Htag].
      * by rewrite Hhref.
      * rewrite Htag, Hhref.
        destruct (select_one subtitle_anchor doc) as [t1|]; simpl; [|done].
        by destruct (tag_attrs t1 !! "href").
  - split.
    + intros [= ->]. by left.
    + intros [[= ->]|(doc & tag & H & _)]; done.
Qed.

(** ** The row of an admitted marker *)

Lemma csv_rows_fetch w store_id fields s enriched s1 :
  fetch_store_data w store_id fields s = (Ok enriched, s1) ->
  csv_rows (trace s1) = csv_rows (trace s).
Proof.
  destruct (fetch_store_data_total w store_id fields s)
    as (out & events & -> & Hevents & _).
  intros [= _ <-]. simpl. rewrite csv_rows_app.
  destruct Hevents as [-> | ->]; simpl; by rewrite app_nil_r.
Qed.

(** X6.  What an admitted marker puts in the file: the header first if this
    is the first row of the run, then one line of twelve cells.  The
    [website_url] and [maps_url] columns hold what was extracted from the
    markup; every other column, [has_enabled_affiliate] included, holds the
    value of the enriched marker for that field, or the empty string when
    the marker has none. *)
Theorem admitted_marker_row w fields s enriched s1 website_url maps_url :
  let store_id := default VNone (fields !! "id") in
  let store_html := default (VStr "") (enriched !! "store_html") in
  set_contains (seen_ids s) store_id = Ok false ->
  list_contains ALLOWED_COUNTRIES (default VNone (fields !! "country")) = true ->
  fetch_store_data w store_id fields (with_seen store_id s) = (Ok enriched, s1) ->
  extract_urls_from_html w store_html = Ok (website_url, maps_url) ->
  exists cells,
    csv_rows (trace (process_marker w (VDict fields) s).2)
    = csv_rows (trace s)
      ++ (if wrote_header s then [] else [header_cells]) ++ [cells]
    /\ length cells = 12
    /\ forall i field,
         FIELDS !! i = Some field ->
         cells !! i
         = Some (if decide (field = "website_url") then VStr website_url
                 else if decide (field = "maps_url") then VStr maps_url
                 else default (VStr "") (enriched !! field)).
Proof.
  intros store_id store_html Hseen Hcountry Hfetch Hurls.
  rewrite (process_marker_written w fields s enriched s1 website_url maps_url)
    by done.
  destruct (fetch_store_data_locals _ _ _ _ _ _ Hfetch) as [_ Hheader].
  simpl in Hheader. rewrite Hheader.
  eexists. split_and!.
  - simpl. rewrite !csv_rows_app, (csv_rows_fetch _ _ _ _ _ _ Hfetch). simpl.
    by destruct (wrote_header s).
  - done.
  - intros i field Hi. unfold row_cells. rewrite list_lookup_fmap, Hi. simpl.
    f_equal. repeat case_decide; subst.
    + by rewrite lookup_insert_ne, lookup_insert_ne, lookup_insert_eq.
    + by rewrite lookup_insert_ne, lookup_insert_eq.
    + destruct (decide (field = "has_enabled_affiliate")) as [->|].
      * by rewrite lookup_insert_eq.
      * by rewrite !lookup_insert_ne.
Qed.

Lemma admitted_marker_row_witness :
  let fields := <["website_url" := VStr "search-site"]> (marker_of "7" "PT") in
  exists cells,
    csv_rows (trace (process_marker profile_world (VDict fields) initial_state).2)
    = csv_rows (trace initial_state)
      ++ (if wrote_header initial_state then [] else [header_cells]) ++ [cells]
    /\ length cells = 12
    /\ forall i field,
         FIELDS !! i = Some field ->
         cells !! i
         = Some (if decide (field = "website_url")
                 then VStr "https://shop.example"
                 else if decide (field = "maps_url")
                      then VStr "https://maps.example"
                      else default (VStr "")
                             ((<["maps_url" := VStr "detail-maps"]>
                                 (<["store_html" := VStr "<div>...</div>"]> fields))
                                !! field)).
Proof.
  intros fields.
  apply (admitted_marker_row profile_world fields initial_state
           (<["maps_url" := VStr "detail-maps"]>
              (<["store_html" := VStr "<div>...</div>"]> fields))
           (State [VStr "7"] false [Requested (StoreQuery (VStr "7"))])
           "https://shop.example" "https://maps.example"); by vm_compute.
Defined.

(** ** The shape of a run *)

Lemma process_marker_trace w marker s :
  exists events,
    trace (process_marker w marker s).2 = trace s ++ events
    /\ Forall (fun e => is_marker_event e = true) events.
Proof.
  destruct (process_marker_step w marker s)
    as [ | | |fields store_id Hseen _
        |fields enriched s1 e store_id Hseen _ Hfetch _
        |fields enriched s1 website_url maps_url store_id affiliate record
           Hseen _ Hfetch _]; simpl;
    try (exists []; split; [by rewrite app_nil_r|done]).
  - destruct (fetch_store_data_total w store_id fields (with_seen store_id s))
      as (out & events & Hrun & Hevents & _).
    rewrite Hrun in Hfetch. injection Hfetch as _ <-. eexists. split; [done|].
    destruct Hevents as [-> | ->]; by repeat constructor.
  - destruct (fetch_store_data_total w store_id fields (with_seen store_id s))
      as (out & events & Hrun & Hevents & _).
    rewrite Hrun in Hfetch. injection Hfetch as _ <-. simpl.
    eexists. split; [by rewrite <- app_assoc|].
    destruct Hevents as [-> | ->], (wrote_header s); by repeat constructor.
Qed.

Lemma for_each_marker_trace w items s :
  exists events,
    trace (for_each (process_marker w) items s).2 = trace s ++ events
    /\ Forall (fun e => is_marker_event e = true) events.
Proof.
  revert s. induction items as [|marker items IH]; intros s; simpl.
  - exists []. by rewrite app_nil_r.
  - unfold mbind, M_bind.
    destruct (process_marker_trace w marker s) as (ev1 & H1 & F1).
    destruct (process_marker w marker s) as [[[]|e] s1]; simpl in *.
    + destruct (IH s1) as (ev2 & H2 & F2).
      exists (ev1 ++ ev2). split; [|by apply Forall_app].
      by rewrite H2, H1, app_assoc.
    + by exists ev1.
Qed.

(** One box: the request, then either the failure notice, or the effects of
    its markers followed by the pause, or, when the run is aborted, the
    effects up to the exception. *)
Lemma scan_box_trace w b s :
  exists events tail,
    trace (scan_box w b s).2
    = trace s ++ Requested (MapQuery b) :: events ++ tail
    /\ Forall (fun e => is_marker_event e = true) events
    /\ match (scan_box w b s).1 with
       | Ok _ => tail = [Slept]
                 \/ exists e, tail = [Printed (BoxLookupFailed b e)]
       | Raise _ => tail = []
       end.
Proof.
  rewrite scan_box_run.
  destruct (map_data _) as [data|].
  - unfold after_map_query, mbind, M_bind, lift.
    destruct (py_get data "markers" (VList [])) as [markers|e];
      [|by exists [], []].
    destruct (py_iter markers) as [items|e]; [|by exists [], []].
    destruct (for_each_marker_trace w items (logged s [Requested (MapQuery b)]))
      as (events & Htr & Hev).
    destruct (for_each (process_marker w) items _) as [[[]|e] s']; simpl in *.
    + exists events, [Slept]. rewrite Htr, <- !app_assoc. eauto.
    + exists events, []. by rewrite Htr, <- !app_assoc, app_nil_r.
  - eexists [], _. simpl. eauto.
Qed.

Lemma marker_events_measures events :
  Forall (fun e => is_marker_event e = true) events ->
  map_queries events = [] /\ pauses events = 0 /\ box_failures events = 0.
Proof.
  unfold pauses, box_failures.
  induction 1 as [|e events He _ (IH1 & IH2 & IH3)]; [done|].
  destruct e as [[]|[]| | |]; try done.
Qed.

Lemma map_queries_app tr tr' :
  map_queries (tr ++ tr') = map_queries tr ++ map_queries tr'.
Proof. apply omap_app. Qed.

Lemma pauses_app tr tr' : pauses (tr ++ tr') = pauses tr + pauses tr'.
Proof. unfold pauses. by rewrite filter_app, length_app. Qed.

Lemma box_failures_app tr tr' :
  box_failures (tr ++ tr') = box_failures tr + box_failures tr'.
Proof. unfold box_failures. by rewrite filter_app, length_app. Qed.

Lemma scan_box_measures w b s :
  let tr := trace s in
  let tr' := trace (scan_box w b s).2 in
  map_queries tr' = map_queries tr ++ [b]
  /\ match (scan_box w b s).1 with
     | Ok _ => pauses tr' + box_failures tr' = pauses tr + box_failures tr + 1
     | Raise _ => pauses tr' + box_failures tr' = pauses tr + box_failures tr
     end.
Proof.
  intros tr tr'. subst tr tr'.
  destruct (scan_box_trace w b s) as (events & tail & -> & Hev & Htail).
  destruct (marker_events_measures _ Hev) as (M1 & M2 & M3).
  change (Requested (MapQuery b) :: events ++ tail)
    with ([Requested (MapQuery b)] ++ events ++ tail).
  rewrite !map_queries_app, !pauses_app, !box_failures_app, M1, M2, M3.
  destruct (scan_box w b s).1.
  - destruct Htail as [-> | [e ->]]; split; try done; simpl;
      unfold pauses, box_failures; simpl; lia.
  - subst tail. split; [done|]. unfold pauses, box_failures; simpl. lia.
Qed.

Lemma scan_measures w boxes s :
  let tr := trace s in
  let tr' := trace (scan w boxes s).2 in
  exists asked,
    asked `prefix_of` boxes
    /\ map_queries tr' = map_queries tr ++ asked
    /\ match (scan w boxes s).1 with
       | Ok _ =>
           asked = boxes
           /\ pauses tr' + box_failures tr'
              = pauses tr + box_failures tr + length boxes
       | Raise _ =>
           pauses tr' + box_failures tr' + 1
           = pauses tr + box_failures tr + length asked
       end.
Proof.
  revert s. induction boxes as [|b boxes IH]; intros s; simpl.
  - exists []. split_and!; [done|by rewrite app_nil_r|done|lia].
  - unfold scan in *. simpl. unfold mbind, M_bind.
    destruct (scan_box_measures w b s) as (Hq & Hp).
    destruct (scan_box w b s) as [[[]|e] s1]; simpl in *.
    + destruct (IH s1) as (asked & Hpre & Hq' & Hp').
      exists (b :: asked). split_and!.
      * by apply prefix_cons.
      * by rewrite Hq', Hq, <- app_assoc.
      * destruct (for_each (scan_box w) boxes s1).1.
        -- destruct Hp' as [-> Hp']. split; [done|]. simpl. lia.
        -- simpl. lia.
    + exists [b]. split_and!.
      * apply prefix_cons, prefix_nil.
      * done.
      * simpl. lia.
Qed.

Lemma asked_boxes_prefix (w : world) :
  map_queries (trace (main w).2) `prefix_of` generate_bounding_boxes
  /\ ((main w).1 = Ok () ->
      map_queries (trace (main w).2) = generate_bounding_boxes).
Proof.
  unfold main. destruct (sink_opens w); simpl.
  - destruct (scan_measures w generate_bounding_boxes initial_state)
      as (asked & Hpre & Hq & Hp). simpl in Hq. rewrite Hq.
    split; [done|]. intros Hok. rewrite Hok in Hp. by destruct Hp as [-> _].
  - split; [apply prefix_nil|done].
Qed.

(** X7.  The map endpoint is asked for the boxes in the order the generator
    yields them, once each: what a run has asked for is an initial part of
    the grid, and the whole grid when the run ends normally. *)
Theorem map_queries_follow_grid (w : world) :
  map_queries (trace (main w).2) `prefix_of` generate_bounding_boxes
  /\ ((main w).1 = Ok () ->
      map_queries (trace (main w).2) = generate_bounding_boxes).
Proof. apply asked_boxes_prefix. Qed.

(** X8.  A box is followed by the pause when its query succeeded and its
    markers were processed, and by the failure notice, without a pause, when
    its query failed.  So in a run that ends normally the pauses and the
    failure notices together are as many as the boxes; in a run that is
    aborted they are one fewer than the boxes asked for. *)
Theorem one_pause_or_notice_per_box (w : world) :
  let tr := trace (main w).2 in
  match (main w).1 with
  | Ok _ =>
      pauses tr + box_failures tr = length generate_bounding_boxes
      /\ length (map_queries tr) = length generate_bounding_boxes
  | Raise _ =>
      sink_opens w = false /\ tr = []
      \/ pauses tr + box_failures tr + 1 = length (map_queries tr)
  end.
Proof.
  unfold main. destruct (sink_opens w); simpl; [|by left].
  destruct (scan_measures w generate_bounding_boxes initial_state)
    as (asked & Hpre & Hq & Hp). simpl in Hq, Hp.
  destruct (scan w generate_bounding_boxes initial_state).1.
  - destruct Hp as [-> Hp]. by rewrite Hq.
  - right. by rewrite Hq.
Qed.

(** ** What is enriched and what is written *)

Lemma Qeq_bool_sym x y : Qeq_bool x y = Qeq_bool y x.
Proof.
  destruct (Qeq_bool x y) eqn:E1, (Qeq_bool y x) eqn:E2; try done.
  - apply Qeq_bool_iff in E1. symmetry in E1. apply Qeq_bool_iff in E1.
    congruence.
  - apply Qeq_bool_iff in E2. symmetry in E2. apply Qeq_bool_iff in E2.
    congruence.
Qed.

Lemma py_eq_sym a b : py_eq a b = py_eq b a.
Proof.
  destruct a, b; unfold py_eq, as_number; try done;
    try apply Qeq_bool_sym.
  apply bool_decide_ext. split; by intros ->.
Qed.

Lemma fetch_store_data_admits w store_id fields s enriched s1 :
  fetch_store_data w store_id fields (with_seen store_id s) = (Ok enriched, s1) ->
  seen_ids s1 = store_id :: seen_ids s
  /\ admitted_ids (trace s1) = admitted_ids (trace s) ++ [store_id]
  /\ written_markers (trace s1) = written_markers (trace s)
  /\ fields ⊆ enriched.
Proof.
  destruct (fetch_store_data_total w store_id fields (with_seen store_id s))
    as (out & events & -> & Hevents & Hsub).
  intros [= <- <-]. simpl.
  rewrite admitted_ids_app, written_markers_app.
  destruct Hevents as [-> | ->]; simpl; by rewrite app_nil_r.
Qed.

Lemma admitted_once_add s s1 store_id :
  admitted_once s ->
  set_contains (seen_ids s) store_id = Ok false ->
  seen_ids s1 = store_id :: seen_ids s ->
  admitted_ids (trace s1) = admitted_ids (trace s) ++ [store_id] ->
  admitted_once s1.
Proof.
  intros [Hin Hdist] [_ Hnew]%set_contains_Ok Hseen Hadm. split.
  - intros x. rewrite Hadm, Hseen, elem_of_app, list_elem_of_singleton.
    intros [Hx | ->]; [|apply list_elem_of_here].
    by apply list_elem_of_further, Hin.
  - intros i j x y Hij Hi Hj. rewrite Hadm in Hi, Hj.
    apply lookup_app_Some in Hj as [Hj | [Hlen Hj]].
    + apply lookup_app_Some in Hi as [Hi | [Hlen' _]].
      * by apply (Hdist i j).
      * apply lookup_lt_Some in Hj. lia.
    + apply list_lookup_singleton_Some in Hj as [Hj0 <-].
      apply lookup_app_Some in Hi as [Hi | [Hlen' _]]; [|lia].
      assert (Hx : x ∈ seen_ids s) by (by eapply Hin, list_elem_of_lookup_2).
      assert (py_eq store_id x = false) as Hne.
      { destruct (py_eq store_id x) eqn:E; [|done].
        rewrite <- Hnew. symmetry. apply existsb_exists. exists x.
        split; [by apply list_elem_of_In|done]. }
      split; [by rewrite py_eq_sym|done].
Qed.

Lemma process_marker_admitted_once w marker :
  preserves admitted_once (process_marker w marker).
Proof.
  intros s Hs.
  destruct (process_marker_step w marker s)
    as [ | | |fields store_id Hseen _
        |fields enriched s1 e store_id Hseen _ Hfetch _
        |fields enriched s1 website_url maps_url store_id affiliate record
           Hseen _ Hfetch _]; simpl; try done.
  - destruct Hs as [Hin Hdist]. split; [|done].
    intros x Hx. by apply list_elem_of_further, Hin.
  - destruct (fetch_store_data_admits _ _ _ _ _ _ Hfetch) as (H1 & H2 & _).
    by eapply admitted_once_add.
  - destruct (fetch_store_data_admits _ _ _ _ _ _ Hfetch) as (H1 & H2 & _).
    eapply admitted_once_add; [exact Hs|exact Hseen|exact H1|].
    simpl. rewrite !admitted_ids_app, H2.
    destruct (wrote_header s1); simpl; by rewrite app_nil_r.
Qed.

Lemma admitted_once_neutral s e :
  admitted_once s -> is_neutral e = true -> admitted_once (logged s [e]).
Proof.
  intros Hs He. unfold admitted_once. simpl. rewrite admitted_ids_app.
  assert (admitted_ids [e] = []) as -> by (by destruct e as [[]| | | |]).
  by rewrite app_nil_r.
Qed.

(** X9.  No identifier is enriched twice in a run: the identifiers
    [fetch_store_data] is called with are pairwise different for Python's
    equality, whatever the responses hold. *)
Theorem no_identifier_enriched_twice (w : world) (i j : nat) (x y : value) :
  i < j ->
  admitted_ids (trace (main w).2) !! i = Some x ->
  admitted_ids (trace (main w).2) !! j = Some y ->
  py_eq x y = false /\ py_eq y x = false.
Proof.
  assert (H : admitted_once (main w).2).
  { apply main_invariant.
    - split; [by intros x' ?%elem_of_nil|]. by intros i' j' x' y' _ ?.
    - apply admitted_once_neutral.
    - apply process_marker_admitted_once. }
  destruct H as [_ H]. apply H.
Qed.

Lemma no_identifier_enriched_twice_witness :
  py_eq (VStr "1") (VStr "3") = false /\ py_eq (VStr "3") (VStr "1") = false.
Proof.
  apply (no_identifier_enriched_twice scenario_world 0 1);
    [lia|by vm_compute|by vm_compute].
Defined.

Lemma allowed_country v :
  list_contains ALLOWED_COUNTRIES v = true ->
  v = VStr "ES" \/ v = VStr "PT" \/ v = VStr "AD".
Proof.
  unfold list_contains, ALLOWED_COUNTRIES. simpl.
  destruct v as [|[]|n|x|s| |]; unfold py_eq, as_number; try done.
  rewrite orb_false_r, !orb_true_iff, !bool_decide_eq_true.
  intros [->|[->| ->]]; eauto.
Qed.

Lemma process_marker_written_records w marker :
  preserves (fun s => Forall written_record (written_markers (trace s)))
    (process_marker w marker).
Proof.
  intros s Hs.
  destruct (process_marker_step w marker s)
    as [ | | |fields store_id Hseen _
        |fields enriched s1 e store_id Hseen _ Hfetch _
        |fields enriched s1 website_url maps_url store_id affiliate record
           Hseen Hcountry Hfetch _]; simpl; try done.
  - destruct (fetch_store_data_admits _ _ _ _ _ _ Hfetch) as (_ & _ & -> & _).
    done.
  - destruct (fetch_store_data_admits _ _ _ _ _ _ Hfetch) as (_ & _ & H3 & Hsub).
    rewrite !written_markers_app, H3.
    assert (written_markers (if wrote_header s1 then [] else [HeaderWritten]) = [])
      as -> by (by destruct (wrote_header s1)).
    simpl. apply Forall_app. split; [done|]. apply Forall_singleton.
    assert (Hc : exists c, fields !! "country" = Some c
                           /\ (c = VStr "ES" \/ c = VStr "PT" \/ c = VStr "AD")).
    { destruct (fields !! "country") as [c|]; [|done].
      exists c. split; [done|]. by apply allowed_country. }
    destruct Hc as (c & Hc & Hallowed).
    pose proof (lookup_weaken _ _ _ _ Hc Hsub) as Hc'.
    unfold written_record, record. split_and!.
    + rewrite !lookup_insert_ne by done. rewrite Hc'.
      destruct Hallowed as [->|[->| ->]]; eauto.
    + exists website_url.
      by rewrite lookup_insert_ne, lookup_insert_ne, lookup_insert_eq.
    + exists maps_url. by rewrite lookup_insert_ne, lookup_insert_eq.
    + by rewrite lookup_insert_eq.
Qed.

(** X10.  Whatever the responses hold, every record written to the file has
    one of the three allowed countries, a string for [website_url] and for
    [maps_url], and a [has_enabled_affiliate] field. *)
Theorem written_records_are_filtered (w : world) (marker : dict) :
  marker ∈ written_markers (trace (main w).2) -> written_record marker.
Proof.
  assert (H : Forall written_record (written_markers (trace (main w).2))).
  { apply (main_invariant
             (fun s => Forall written_record (written_markers (trace s)))).
    - done.
    - intros s e Hs He. simpl. rewrite written_markers_app.
      assert (written_markers [e] = []) as -> by (by destruct e as [[]| | | |]).
      by rewrite app_nil_r.
    - apply process_marker_written_records. }
  rewrite Forall_forall in H. apply H.
Qed.

Lemma written_records_are_filtered_witness :
  written_record
    (<["has_enabled_affiliate" := VStr ""]>
       (<["maps_url" := VStr ""]>
          (<["website_url" := VStr ""]> (marker_of "3" "PT")))).
Proof.
  apply (written_records_are_filtered scenario_world).
  apply list_elem_of_lookup. exists 1. by vm_compute.
Defined.

Lemma for_each_outcome {A} (I R : state -> Prop) (body : A -> M unit) l :
  (forall x s, I s ->
     match body x s with
     | (Ok _, s') => I s'
     | (Raise _, s') => R s'
     end) ->
  forall s, I s ->
    match for_each body l s with
    | (Ok _, s') => I s'
    | (Raise _, s') => R s'
    end.
Proof.
  intros Hbody. induction l as [|x l IH]; intros s Hs; simpl; [done|].
  unfold mbind, M_bind. specialize (Hbody x s Hs).
  destruct (body x s) as [[[]|e] s1]; [by apply IH|done].
Qed.

Lemma process_marker_rows w marker s :
  rows_match s ->
  match process_marker w marker s with
  | (Ok _, s') => rows_match s'
  | (Raise _, s') => rows_lag s'
  end.
Proof.
  unfold rows_match, rows_lag. intros Hs.
  destruct (process_marker_step w marker s)
    as [ | | |fields store_id Hseen _
        |fields enriched s1 e store_id Hseen _ Hfetch _
        |fields enriched s1 website_url maps_url store_id affiliate record
           Hseen Hcountry Hfetch _]; simpl; try done; try lia.
  - destruct (fetch_store_data_admits _ _ _ _ _ _ Hfetch) as (_ & -> & -> & _).
    rewrite length_app. simpl. lia.
  - destruct (fetch_store_data_admits _ _ _ _ _ _ Hfetch) as (_ & H2 & H3 & _).
    rewrite !written_markers_app, !admitted_ids_app, H2, H3.
    destruct (wrote_header s1); simpl; rewrite !length_app; simpl; lia.
Qed.

Lemma scan_box_rows w b s :
  rows_match s ->
  match scan_box w b s with
  | (Ok _, s') => rows_match s'
  | (Raise _, s') => rows_lag s'
  end.
Proof.
  intros Hs. rewrite scan_box_run.
  destruct (map_data _) as [data|].
  2:{ unfold rows_match in *. simpl.
      rewrite written_markers_app, admitted_ids_app. simpl.
      by rewrite !app_nil_r. }
  assert (H0 : rows_match (logged s [Requested (MapQuery b)])).
  { unfold rows_match in *. simpl.
    rewrite written_markers_app, admitted_ids_app. simpl.
    by rewrite !app_nil_r. }
  assert (Hlag : forall s', rows_match s' -> rows_lag s').
  { unfold rows_match, rows_lag. intros s' ->. lia. }
  unfold after_map_query, mbind, M_bind, lift.
  destruct (py_get data "markers" (VList [])) as [markers|e]; [|by apply Hlag].
  destruct (py_iter markers) as [items|e]; [|by apply Hlag].
  pose proof (for_each_outcome rows_match rows_lag (process_marker w) items
                (process_marker_rows w) _ H0) as Hloop.
  destruct (for_each (process_marker w) items _) as [[[]|e] s']; [|done].
  unfold rows_match in *. simpl.
  rewrite written_markers_app, admitted_ids_app. simpl. by rewrite !app_nil_r.
Qed.

(** X11.  Every admitted marker gets its row: in a run that ends normally
    the rows are as many as the admitted markers; in any run at most the
    last admitted marker is without a row (the run was aborted while its
    markup was read). *)
Theorem one_row_per_admitted_marker (w : world) :
  let tr := trace (main w).2 in
  length (written_markers tr) <= length (admitted_ids tr)
  /\ length (admitted_ids tr) <= length (written_markers tr) + 1
  /\ ((main w).1 = Ok () ->
      length (written_markers tr) = length (admitted_ids tr)).
Proof.
  unfold main. destruct (sink_opens w); simpl; [|by split_and!; try lia].
  pose proof (for_each_outcome rows_match rows_lag (scan_box w)
                generate_bounding_boxes (scan_box_rows w) initial_state eq_refl)
    as H.
  unfold scan.
  destruct (for_each (scan_box w) generate_bounding_boxes initial_state)
    as [[[]|e] s']; unfold rows_match, rows_lag in H; simpl.
  - split_and!; [lia|lia|done].
  - destruct H. by split_and!.
Qed.

(** ** Edge cases of the responses *)




(** X13.  A map response with a success status and a JSON body is used as it
    comes.  If the JSON is not an object the run is aborted with
    [AttributeError]; an object without a [markers] key counts as a box
    without markers (request, then pause); a [markers] value that is null,
    a boolean or a number aborts the run with [TypeError].  In both aborts
    the request is the last effect. *)
Theorem map_response_shapes (w : world) (b : box) (s : state) (data : value) :
  map_data (http_get w (requests_made (trace s)) (MapQuery b)) = Some data ->
  match data with
  | VDict fields =>
      match fields !! "markers" with
      | None =>
          scan_box w b s = (Ok (), logged s [Requested (MapQuery b); Slept])
      | Some (VNone | VBool _ | VInt _ | VFloat _) =>
          scan_box w b s
          = (Raise TypeError, logged s [Requested (MapQuery b)])
      | Some _ => True
      end
  | _ =>
      scan_box w b s
      = (Raise AttributeError, logged s [Requested (MapQuery b)])
  end.
Proof.
  intros Hdata. rewrite scan_box_run, Hdata.
  unfold after_map_query, mbind, M_bind, lift.
  destruct data as [| | | | | |fields]; try done. simpl.
  destruct (fields !! "markers") as [[]|]; try done. simpl.
  unfold emit, logged. simpl. by rewrite <- app_assoc.
Qed.

Lemma map_response_shapes_witness :
  let b := box_at 47 (-13) in
  scan_box array_world b initial_state
  = (Raise AttributeError, logged initial_state [Requested (MapQuery b)]).
Proof.
  intros b.
  exact (map_response_shapes array_world b initial_state (VList []) eq_refl).
Defined.

(** X14.  A marker that is not a JSON object, or whose [id] is a list or an
    object, ends the run: the first with [AttributeError], the second with
    [TypeError].  The marker leaves no trace (it is not even marked seen),
    and the markers after it are not looked at. *)
Theorem malformed_marker_aborts (w : world) (marker : value)
    (rest : list value) (s : state) :
  match marker with
  | VDict fields => hashable (default VNone (fields !! "id")) = false
  | _ => True
  end ->
  for_each (process_marker w) (marker :: rest) s
  = (Raise (match marker with
            | VDict _ => TypeError
            | _ => AttributeError
            end), s).
Proof.
  intros Hbad. simpl. unfold mbind, M_bind.
  destruct marker as [| | | | | |fields]; try done.
  unfold process_marker, mbind, M_bind, lift, seen_contains, set_contains.
  simpl. by rewrite Hbad.
Qed.

Lemma malformed_marker_aborts_witness :
  for_each (process_marker scenario_world)
    [VDict {["id" := VList [VInt 1]]}; VDict (marker_of "1" "ES")]
    initial_state
  = (Raise TypeError, initial_state).
Proof.
  by apply (malformed_marker_aborts scenario_world
              (VDict {["id" := VList [VInt 1]]})).
Defined.
